(** * The paper ingestion pipeline of [download_paper.py]

    A shallow embedding of [claude_skills/paper-reader/scripts/download_paper.py]:
    the three source resolvers ([download_arxiv], [download_url] and the
    local-file branch of [main]), the page loop of [extract_text] with its
    title scan and its section segmentation, and [main] with its single
    error envelope.

    Modelling conventions.
    - A Python [str] is a list of characters.  Characters are the code
      points below 256, so the predicates [isspace], [isdigit] and
      [lower_char] are Python's [str.isspace], the regex class [\d] and
      [str.lower] restricted to that range.
    - The file system, the arXiv index, HTTP and PyMuPDF are the fields of
      a [World]; every network operation performed is appended to its
      [net_log].  [files] holds what exists at a path; [dirs] tells which
      of these entries are directories.
    - A Python exception is a [Raise] carrying the text of [str(e)]. *)

From Stdlib Require Import String Ascii Bool Arith ZArith NArith Lia List.
From Stdlib Require Import DecimalString DecimalN.
Import ListNotations.
Local Open Scope list_scope.
Set Warnings "-register-all".

(** ** Python strings *)

Definition str := list ascii.

Definition lit (s : string) : str := list_ascii_of_string s.
Arguments lit s%_string.

Definition nl : ascii := ascii_of_nat 10.

Fixpoint str_eqb (a b : str) : bool :=
  match a, b with
  | [], [] => true
  | x :: a', y :: b' => Ascii.eqb x y && str_eqb a' b'
  | _, _ => false
  end.

(** [str.isspace] on one character: TAB..CR, FS..US, space, NEL, NBSP. *)
Definition isspace (c : ascii) : bool :=
  let n := nat_of_ascii c in
  ((9 <=? n) && (n <=? 13)) || ((28 <=? n) && (n <=? 32))
  || (n =? 133) || (n =? 160).

(** The regex class [\d]: the decimal digits. *)
Definition isdigit (c : ascii) : bool :=
  let n := nat_of_ascii c in (48 <=? n) && (n <=? 57).

(** [str.lower] on one character: A..Z and the Latin-1 capitals. *)
Definition lower_char (c : ascii) : ascii :=
  let n := nat_of_ascii c in
  if ((65 <=? n) && (n <=? 90))
     || ((192 <=? n) && (n <=? 222) && negb (n =? 215))
  then ascii_of_nat (n + 32)
  else c.

Definition lower (s : str) : str := map lower_char s.

Fixpoint lstrip (s : str) : str :=
  match s with
  | [] => []
  | c :: s' => if isspace c then lstrip s' else s
  end.

Definition rstrip (s : str) : str := rev (lstrip (rev s)).

Definition strip (s : str) : str := rstrip (lstrip s).

(** [s.split(sep)] for a one-character separator: never the empty list. *)
Fixpoint split (sep : ascii) (s : str) : list str :=
  match s with
  | [] => [[]]
  | c :: s' =>
      if Ascii.eqb c sep then [] :: split sep s'
      else match split sep s' with
           | l :: ls => (c :: l) :: ls
           | [] => [[c]]
           end
  end.

Fixpoint startswith (s p : str) {struct p} : bool :=
  match p, s with
  | [], _ => true
  | a :: p', b :: s' => Ascii.eqb a b && startswith s' p'
  | _ :: _, [] => false
  end.

Definition endswith (s suffix : str) : bool :=
  startswith (rev s) (rev suffix).

(** [sep.join(l)]. *)
Fixpoint join (sep : str) (l : list str) : str :=
  match l with
  | [] => []
  | [x] => x
  | x :: rest => x ++ sep ++ join sep rest
  end.

(** [s.replace(old, new)] for a non-empty [old]: the occurrences are
    replaced from the left and do not overlap; [skip] counts the
    characters of the occurrence just replaced that are still ahead. *)
Fixpoint replace_from (old new : str) (skip : nat) (s : str) : str :=
  match s with
  | [] => []
  | c :: s' =>
      match skip with
      | S k => replace_from old new k s'
      | O =>
          if startswith s old
          then new ++ replace_from old new (List.length old - 1) s'
          else c :: replace_from old new 0 s'
      end
  end.

Definition replace (s old new : str) : str := replace_from old new 0 s.

(** [os.path.join(a, b)] of [posixpath]. *)
Definition os_path_join (a b : str) : str :=
  if startswith b (lit "/") then b
  else if (match a with [] => true | _ => false end) || endswith a (lit "/")
       then a ++ b
       else a ++ lit "/" ++ b.

(** The decimal rendering of a non-negative integer in an f-string. *)
Definition str_of_N (n : N) : str :=
  lit (NilEmpty.string_of_uint (N.to_uint n)).

(** ** Regular expressions

    The fragment of Python's [re] that [section_pattern] uses: character
    classes, concatenation, alternation and repetition.  [re_match r s]
    is the truth value of [r.match(s)]: some prefix of [s] is matched. *)

Inductive regex : Type :=
| Void : regex
| Eps : regex
| Chr : (ascii -> bool) -> regex
| Cat : regex -> regex -> regex
| Alt : regex -> regex -> regex
| Star : regex -> regex.

Fixpoint nullable (r : regex) : bool :=
  match r with
  | Void => false
  | Eps => true
  | Chr _ => false
  | Cat r1 r2 => nullable r1 && nullable r2
  | Alt r1 r2 => nullable r1 || nullable r2
  | Star _ => true
  end.

Fixpoint deriv (c : ascii) (r : regex) : regex :=
  match r with
  | Void => Void
  | Eps => Void
  | Chr p => if p c then Eps else Void
  | Cat r1 r2 =>
      if nullable r1
      then Alt (Cat (deriv c r1) r2) (deriv c r2)
      else Cat (deriv c r1) r2
  | Alt r1 r2 => Alt (deriv c r1) (deriv c r2)
  | Star r1 => Cat (deriv c r1) (Star r1)
  end.

Fixpoint re_match (r : regex) (s : str) : bool :=
  if nullable r then true
  else match s with
       | [] => false
       | c :: s' => re_match (deriv c r) s'
       end.

(** The strings a regex matches in full. *)
Inductive lang : regex -> str -> Prop :=
| lang_eps : lang Eps []
| lang_chr : forall (p : ascii -> bool) c, p c = true -> lang (Chr p) [c]
| lang_cat : forall r1 r2 s1 s2,
    lang r1 s1 -> lang r2 s2 -> lang (Cat r1 r2) (s1 ++ s2)
| lang_alt_l : forall r1 r2 s, lang r1 s -> lang (Alt r1 r2) s
| lang_alt_r : forall r1 r2 s, lang r2 s -> lang (Alt r1 r2) s
| lang_star_nil : forall r, lang (Star r) []
| lang_star_app : forall r s1 s2,
    lang r s1 -> lang (Star r) s2 -> lang (Star r) (s1 ++ s2).

Definition opt (r : regex) : regex := Alt Eps r.
Definition plus (r : regex) : regex := Cat r (Star r).
Definition alts (l : list regex) : regex := fold_right Alt Void l.

(** A pattern letter under [re.IGNORECASE]. *)
Definition ci (p : ascii) : regex :=
  Chr (fun c => Ascii.eqb (lower_char c) p).

Definition word (w : string) : regex :=
  fold_right (fun c r => Cat (ci c) r) Eps (lit w).
Arguments word w%_string.

Definition digit : regex := Chr isdigit.
Definition space : regex := Chr isspace.
Definition dot : regex := Chr (Ascii.eqb "."%char).

(** [section_pattern], lines 68-73. *)
Definition section_pattern : regex :=
  Cat (opt (Cat (plus digit) (Cat (opt dot) (Star space))))
      (alts [ word "abstract"; word "introduction";
              Cat (word "related") (Cat (Star space) (word "work"));
              word "background"; word "methodology"; word "method";
              word "methods"; word "approach";
              Cat (word "experiment") (opt (ci "s"%char));
              Cat (word "result") (opt (ci "s"%char));
              word "discussion"; word "conclusion"; word "conclusions";
              word "references";
              Cat (word "acknowledgement") (opt (ci "s"%char));
              word "appendix" ]).

(** [section_pattern.match(line)] as a truth value. *)
Definition section_pattern_match (line : str) : bool :=
  re_match section_pattern line.

(** ** Section segmentation and title scan of [extract_text] *)

(** A finished section: the dict [{"title": ..., "content": ...}] once
    its content lines are joined. *)
Record SectionDict : Type := mkSection {
  sec_title : str;
  sec_content : str
}.

(** [current_section] while it is being filled: its content is the list
    of lines appended so far. *)
Record Current : Type := mkCurrent {
  cur_title : str;
  cur_content : list str
}.

(** The locals the page loop of [extract_text] updates. *)
Record LoopState : Type := mkLoop {
  full_text : list str;
  sections : list SectionDict;
  current_section : Current;
  title : option str
}.

Definition initial_state : LoopState :=
  mkLoop [] [] (mkCurrent (lit "Beginning") []) None.

(** Truth value of a list or string used as a condition. *)
Definition truthy {A : Type} (l : list A) : bool :=
  match l with
  | [] => false
  | _ :: _ => true
  end.

(** Lines 96-97 and 105-106: join the content and append the section. *)
Definition close_section (cur : Current) : SectionDict :=
  mkSection (cur_title cur) (join [nl] (cur_content cur)).

Definition append_if_content (secs : list SectionDict) (cur : Current)
  : list SectionDict :=
  if truthy (cur_content cur) then secs ++ [close_section cur] else secs.

(** Body of the loop over the lines of a page, lines 92-101. *)
Definition line_step (st : LoopState) (line : str) : LoopState :=
  let line_stripped := strip line in
  if section_pattern_match line_stripped then
    mkLoop (full_text st)
           (append_if_content (sections st) (current_section st))
           (mkCurrent line_stripped [])
           (title st)
  else if truthy line_stripped then
    mkLoop (full_text st)
           (sections st)
           (mkCurrent (cur_title (current_section st))
                      (cur_content (current_section st) ++ [line_stripped]))
           (title st)
  else st.

(** The loop over the first lines of the first page, lines 84-88: the
    first line that qualifies is the title and ends the loop. *)
Fixpoint title_scan (lines : list str) : option str :=
  match lines with
  | [] => None
  | line :: rest =>
      let line := strip line in
      if (10 <? List.length line) && (List.length line <? 200)
      then Some line
      else title_scan rest
  end.

Definition title_truthy (t : option str) : bool :=
  match t with
  | None => false
  | Some s => truthy s
  end.

(** Lines 82-88. *)
Definition title_step (page_num : nat) (text : str) (t : option str)
  : option str :=
  if (page_num =? 0) && negb (title_truthy t) then
    match title_scan (firstn 5 (split nl (strip text))) with
    | Some found => Some found
    | None => t
    end
  else t.

(** Body of the loop over the pages, lines 78-101, once [get_text]
    has returned [text]. *)
Definition page_step (page_num : nat) (text : str) (st : LoopState)
  : LoopState :=
  let st1 :=
    mkLoop (full_text st ++ [text]) (sections st) (current_section st)
           (title_step page_num text (title st)) in
  fold_left line_step (split nl text) st1.

(** ** Results and exceptions *)

Inductive result (A : Type) : Type :=
| Ok : A -> result A
| Raise : str -> result A.
Arguments Ok {A} _.
Arguments Raise {A} _.

(** A page of an opened document: what [page.get_text()] gives. *)
Definition Page : Type := result str.

Definition get_text (page : Page) : result str := page.

(** The loop over the pages, line 77: [enumerate] counts from
    [page_num]; an exception of [get_text] leaves the loop. *)
Fixpoint pages_loop (page_num : nat) (doc : list Page) (st : LoopState)
  : result LoopState :=
  match doc with
  | [] => Ok st
  | page :: rest =>
      match get_text page with
      | Raise e => Raise e
      | Ok text => pages_loop (S page_num) rest (page_step page_num text st)
      end
  end.

(** The dict [extract_text] returns. *)
Record Extracted : Type := mkExtracted {
  r_title : option str;
  r_pdf_path : str;
  r_pages : nat;
  r_text : str;
  r_sections : list SectionDict
}.

(** [extract_text] on an opened document, lines 63-117. *)
Definition extract_doc (pdf_path : str) (doc : list Page)
  : result Extracted :=
  match pages_loop 0 doc initial_state with
  | Raise e => Raise e
  | Ok st =>
      Ok (mkExtracted (title st)
                      pdf_path
                      (List.length doc)
                      (join [nl; nl] (full_text st))
                      (append_if_content (sections st) (current_section st)))
  end.

(** ** The world: files, network, PDF reader *)

Definition bytes : Type := list Byte.byte.

Inductive NetOp : Type :=
| ArxivSearch : str -> NetOp
| ArxivFetch : str -> NetOp
| HttpGet : str -> NetOp.

(** What [requests.get] returns: [raise_for_status] raises
    [http_error] for a 4xx or 5xx [status_code]. *)
Record Response : Type := mkResponse {
  status_code : Z;
  content : bytes;
  http_error : str
}.

(** A record of the arXiv index: the outcome of fetching its PDF. *)
Definition Paper : Type := result bytes.

Record World : Type := mkWorld {
  files : str -> option bytes;
  net_log : list NetOp;
  arxiv_index : str -> result (list Paper);
  http : str -> result Response;
  write_error : str -> option str;
  fitz_parse : bytes -> result (list Page);
  process_hash : str -> Z;
  tempdir : str;
  dirs : str -> bool;
  makedirs_error : str -> option str;
  tempdir_error : option str
}.

(** Computations that read and update the world and may raise. *)
Definition M (A : Type) : Type := World -> result A * World.

Definition ret {A : Type} (a : A) : M A := fun w => (Ok a, w).

Definition raise {A : Type} (msg : str) : M A := fun w => (Raise msg, w).

Definition bind {A B : Type} (m : M A) (k : A -> M B) : M B :=
  fun w =>
    match m w with
    | (Ok a, w') => k a w'
    | (Raise e, w') => (Raise e, w')
    end.

Notation "x <- m ;; k" := (bind m (fun x => k))
  (at level 61, m at next level, right associativity).
Notation "m ;;; k" := (bind m (fun _ => k))
  (at level 61, right associativity).

Definition log_net (op : NetOp) : M unit :=
  fun w =>
    (Ok tt,
     mkWorld (files w) (net_log w ++ [op]) (arxiv_index w) (http w)
             (write_error w) (fitz_parse w) (process_hash w) (tempdir w)
             (dirs w) (makedirs_error w) (tempdir_error w)).

Definition os_path_exists (path : str) : M bool :=
  fun w =>
    (Ok (match files w path with Some _ => true | None => false end), w).

(** [open(path, 'wb')] followed by a write of [data]. *)
Definition write_file (path : str) (data : bytes) : M unit :=
  fun w =>
    match write_error w path with
    | Some e => (Raise e, w)
    | None =>
        (Ok tt,
         mkWorld (fun p => if str_eqb p path then Some data else files w p)
                 (net_log w) (arxiv_index w) (http w)
                 (write_error w) (fitz_parse w) (process_hash w) (tempdir w)
             (dirs w) (makedirs_error w) (tempdir_error w))
    end.

(** [list(arxiv.Search(id_list=[arxiv_id]).results())]. *)
Definition arxiv_search (arxiv_id : str) : M (list Paper) :=
  log_net (ArxivSearch arxiv_id) ;;;
  fun w => (arxiv_index w arxiv_id, w).

(** [paper.download_pdf(dirpath, filename)]. *)
Definition download_pdf (arxiv_id : str) (paper : Paper)
    (dirpath filename : str) : M unit :=
  log_net (ArxivFetch arxiv_id) ;;;
  match paper with
  | Raise e => raise e
  | Ok data => write_file (os_path_join dirpath filename) data
  end.

(** [requests.get(url, timeout=60)]. *)
Definition requests_get (url : str) : M Response :=
  log_net (HttpGet url) ;;;
  fun w => (http w url, w).

Definition raise_for_status (r : Response) : M unit :=
  if ((400 <=? status_code r) && (status_code r <? 600))%Z
  then raise (http_error r)
  else ret tt.

(** The built-in [hash] of a string: it is salted by the interpreter
    at start-up, so it is a field of the world. *)
Definition hash (s : str) : M Z := fun w => (Ok (process_hash w s), w).

(** [fitz.open(pdf_path)]. *)
Definition fitz_open (pdf_path : str) : M (list Page) :=
  fun w =>
    match files w pdf_path with
    | None => (Raise (lit "no such file: '" ++ pdf_path ++ lit "'"), w)
    | Some data => (fitz_parse w data, w)
    end.

(** ** The resolvers *)

(** Line 19. *)
Definition clean_arxiv_id (arxiv_id : str) : str :=
  strip (replace (lower arxiv_id) (lit "arxiv:") []).

Definition arxiv_filename (arxiv_id : str) : str :=
  lit "arxiv_" ++ clean_arxiv_id arxiv_id ++ lit ".pdf".

(** Line 21. *)
Definition arxiv_cache_path (arxiv_id cache_dir : str) : str :=
  os_path_join cache_dir (arxiv_filename arxiv_id).

Definition download_arxiv (arxiv_id cache_dir : str) : M str :=
  let id := clean_arxiv_id arxiv_id in
  let cache_path := arxiv_cache_path arxiv_id cache_dir in
  cached <- os_path_exists cache_path ;;
  if cached then ret cache_path
  else
    results <- arxiv_search id ;;
    match results with
    | [] => raise (lit "arXiv paper not found: " ++ id)
    | paper :: _ =>
        download_pdf id paper cache_dir (arxiv_filename arxiv_id) ;;;
        ret cache_path
    end.

(** The last element of [url.split('/')]. *)
Definition last_segment (url : str) : str :=
  last (split "/"%char url) [].

(** Lines 41-43, given the value of [hash(url)]. *)
Definition url_filename (h : Z) (url : str) : str :=
  let filename := last_segment url in
  if negb (endswith filename (lit ".pdf"))
  then str_of_N (Z.to_N (Z.land h 4294967295)) ++ lit ".pdf"
  else filename.

Definition download_url (url cache_dir : str) : M str :=
  h <- hash url ;;
  let cache_path := os_path_join cache_dir (url_filename h url) in
  cached <- os_path_exists cache_path ;;
  if cached then ret cache_path
  else
    response <- requests_get url ;;
    raise_for_status response ;;;
    write_file cache_path (content response) ;;;
    ret cache_path.

Definition extract_text (pdf_path : str) : M Extracted :=
  doc <- fitz_open pdf_path ;;
  fun w => (extract_doc pdf_path doc, w).

(** ** [main] *)

Inductive json : Type :=
| JNull : json
| JInt : Z -> json
| JStr : str -> json
| JArr : list json -> json
| JObj : list (str * json) -> json.

(** What a run leaves behind: the objects printed on standard output,
    in order, and the exit status. *)
Record Outcome : Type := mkOutcome {
  stdout : list json;
  exit_status : Z
}.

Definition error_envelope (msg : str) : json :=
  JObj [(lit "error", JStr msg)].

Definition usage : str :=
  lit "Usage: download_paper.py <arxiv|local|url> <source>".

Definition section_json (s : SectionDict) : json :=
  JObj [(lit "title", JStr (sec_title s));
        (lit "content", JStr (sec_content s))].

(** The dict of line 111 with the two keys of lines 146-147. *)
Definition result_json (r : Extracted) (source source_type : str) : json :=
  JObj [(lit "title",
         match r_title r with Some t => JStr t | None => JNull end);
        (lit "pdf_path", JStr (r_pdf_path r));
        (lit "pages", JInt (Z.of_nat (r_pages r)));
        (lit "text", JStr (r_text r));
        (lit "sections", JArr (map section_json (r_sections r)));
        (lit "source", JStr source);
        (lit "source_type", JStr source_type)].

(** Line 130. *)
Definition cache_dir_of (w : World) : str :=
  os_path_join (tempdir w) (lit "paper_cache").

(** The chain of lines 134-143. *)
Definition resolve (source_type source cache_dir : str) : M str :=
  if str_eqb source_type (lit "arxiv") then download_arxiv source cache_dir
  else if str_eqb source_type (lit "local") then
    present <- os_path_exists source ;;
    if negb present then raise (lit "File not found: " ++ source)
    else ret source
  else if str_eqb source_type (lit "url") then download_url source cache_dir
  else raise (lit "Unknown source type: " ++ source_type).

(** Lines 133-153: the [try] block and its handler. *)
Definition report (source source_type : str) (r : result Extracted * World)
  : Outcome * World :=
  match r with
  | (Ok res, w') => (mkOutcome [result_json res source source_type] 0, w')
  | (Raise e, w') => (mkOutcome [error_envelope e] 1, w')
  end.

(** [tempfile.gettempdir()]: it raises when no usable directory is
    found. *)
Definition gettempdir : M str :=
  fun w =>
    match tempdir_error w with
    | Some e => (Raise e, w)
    | None => (Ok (tempdir w), w)
    end.

(** [os.makedirs(path, exist_ok=True)] below an existing parent: an
    existing directory is left as it is, an existing regular file
    raises, and otherwise the directory is created unless the system
    refuses.  A directory is an entry of [files], which [os.path.exists]
    sees, marked in [dirs]; it holds no content. *)
Definition os_makedirs (path : str) : M unit :=
  fun w =>
    match files w path with
    | Some _ =>
        if dirs w path then (Ok tt, w)
        else (Raise (lit "[Errno 17] File exists: '" ++ path ++ lit "'"), w)
    | None =>
        match makedirs_error w path with
        | Some e => (Raise e, w)
        | None =>
            (Ok tt,
             mkWorld (fun p => if str_eqb p path then Some [] else files w p)
                     (net_log w) (arxiv_index w) (http w)
                     (write_error w) (fitz_parse w) (process_hash w)
                     (tempdir w)
                     (fun p => if str_eqb p path then true else dirs w p)
                     (makedirs_error w) (tempdir_error w))
        end
    end.

(** Lines 130-131, which stand before the [try]. *)
Definition prepare_cache_dir : M str :=
  tmp <- gettempdir ;;
  os_makedirs (os_path_join tmp (lit "paper_cache")) ;;;
  ret (os_path_join tmp (lit "paper_cache")).

(** What an exception outside the [try] leaves: a traceback on standard
    error, nothing on standard output, status 1. *)
Definition uncaught : Outcome := mkOutcome [] 1.

(** [main], lines 120-153.  [argv] is [sys.argv], program name first. *)
Definition main (argv : list str) (w : World) : Outcome * World :=
  if List.length argv <? 3 then
    (mkOutcome [error_envelope usage] 1, w)
  else
    let source_type := lower (nth 1 argv []) in
    let source := nth 2 argv [] in
    match prepare_cache_dir w with
    | (Raise _, w1) => (uncaught, w1)
    | (Ok cache_dir, w1) =>
        report source source_type
          ((pdf_path <- resolve source_type source cache_dir ;;
            extract_text pdf_path) w1)
    end.

(** ** Descriptions the theorems compare the code with *)

(** A candidate title: more than 10 and fewer than 200 characters. *)
Definition title_ok (line : str) : bool :=
  (10 <? List.length line) && (List.length line <? 200).

(** The title the code finds on a first page: the first candidate among
    the first five lines, blank ones included, of the trimmed page. *)
Definition first_page_title (text : str) : option str :=
  find title_ok (map strip (firstn 5 (split nl (strip text)))).

(** The title as the specification words it: the first candidate among
    the first five non-empty trimmed lines of the page. *)
Definition spec_title (text : str) : option str :=
  find title_ok (firstn 5 (filter truthy (map strip (split nl text)))).

(** The section names of the heading vocabulary, with both forms of the
    names that have an optional plural. *)
Definition vocabulary : list str :=
  [ lit "abstract"; lit "introduction"; lit "background";
    lit "methodology"; lit "method"; lit "methods"; lit "approach";
    lit "experiment"; lit "experiments"; lit "result"; lit "results";
    lit "discussion"; lit "conclusion"; lit "conclusions";
    lit "references"; lit "acknowledgement"; lit "acknowledgements";
    lit "appendix" ].

(** The optional prefix of a heading: digits, then at most one dot,
    then any number of whitespace characters. *)
Definition numeral_prefix (pre : str) : Prop :=
  pre = [] \/
  exists ds d ws,
    pre = ds ++ d ++ ws /\ ds <> [] /\ forallb isdigit ds = true /\
    (d = [] \/ d = lit ".") /\ forallb isspace ws = true.

(** A section name, letter case ignored: a word of the vocabulary, or
    "related" and "work" with any number of whitespace characters,
    none included, between them. *)
Definition heading_word (w : str) : Prop :=
  In (lower w) vocabulary \/
  exists r ws k,
    w = r ++ ws ++ k /\ lower r = lit "related" /\
    forallb isspace ws = true /\ lower k = lit "work".

(** What the code accepts as a heading, in words. *)
Definition heading_shape (line : str) : Prop :=
  exists pre w rest,
    line = pre ++ w ++ rest /\ numeral_prefix pre /\ heading_word w.

(** The heading test as the specification words it: after an optional
    prefix made of a numeral and a dot, and whitespace, the line starts
    with a name of the vocabulary, "related work" being written with
    one space. *)
Definition claimed_vocabulary : list str :=
  lit "related work" :: vocabulary.

Fixpoint drop_while (p : ascii -> bool) (s : str) : str :=
  match s with
  | [] => []
  | c :: s' => if p c then drop_while p s' else s
  end.

Definition skip_numeral_dot (line : str) : str :=
  match line with
  | c :: _ =>
      if isdigit c then
        match drop_while isdigit line with
        | d :: after => if Ascii.eqb d "."%char then after else line
        | [] => line
        end
      else line
  | [] => line
  end.

Definition claimed_heading (line : str) : bool :=
  let body := lower (drop_while isspace (skip_numeral_dot line)) in
  existsb (fun w => startswith body w) claimed_vocabulary.

(** ** Worlds and documents used as concrete inputs *)

Definition pdf_bytes : bytes := [Byte.x25; Byte.x50; Byte.x44; Byte.x46].

(** A world with no file and an empty arXiv index, where every HTTP
    request is answered 200 with [pdf_bytes]; [pages] is what the PDF
    reader gives for any file. *)
Definition world_of (pages : list Page) (h : str -> Z) : World :=
  mkWorld (fun _ => None) []
          (fun _ => Ok [])
          (fun _ => Ok (mkResponse 200 pdf_bytes []))
          (fun _ => None)
          (fun _ => Ok pages)
          h
          (lit "/tmp")
          (fun _ => false)
          (fun _ => None)
          None.

Definition empty_world : World := world_of [] (fun _ => 0%Z).

(** The same world with one file more. *)
Definition with_file (path : str) (data : bytes) (w : World) : World :=
  mkWorld (fun p => if str_eqb p path then Some data else files w p)
          (net_log w) (arxiv_index w) (http w)
          (write_error w) (fitz_parse w) (process_hash w) (tempdir w)
             (dirs w) (makedirs_error w) (tempdir_error w).

Definition my_paper_text : str :=
  lit "My Paper" ++ [nl; nl] ++ lit "Abstract" ++ [nl] ++
  lit "This is the abstract." ++ [nl; nl] ++ lit "Conclusion" ++ [nl] ++
  lit "The end.".


Definition title_boundary_text : str :=
  lit "Hi" ++ [nl] ++ repeat "A"%char 201 ++ [nl] ++ lit "A Valid Title Here".

Definition blank_lines_text : str :=
  lit "Hi" ++ [nl; nl; nl; nl; nl] ++ lit "A Valid Title Here".

(** A world where "paper.pdf" exists and is read as one page holding
    [my_paper_text]. *)
Definition my_paper_world : World :=
  with_file (lit "paper.pdf") pdf_bytes
            (world_of [Ok my_paper_text] (fun _ => 0%Z)).

(** A world with no file where the arXiv index answers every search
    with one record whose PDF can be fetched. *)
Definition arxiv_world : World :=
  mkWorld (fun _ => None) []
          (fun _ => Ok [Ok pdf_bytes])
          (fun _ => Raise (lit "connection refused"))
          (fun _ => None)
          (fun _ => Ok [])
          (fun _ => 0%Z)
          (lit "/tmp")
          (fun _ => false)
          (fun _ => None)
          None.

(** A world where the path of the cache directory is taken by a
    regular file. *)
Definition blocked_world : World :=
  with_file (lit "/tmp/paper_cache") pdf_bytes empty_world.

(** ** The invariant of the segmentation loops *)




(** ** Lines of a document that are section content *)

(** A trimmed line that line 101 appends to the current section: it is
    not a heading and it is not empty. *)
Definition body_line (line : str) : bool :=
  negb (section_pattern_match line) && truthy line.

(** The trimmed lines of the pages, in reading order. *)
Definition document_lines (texts : list str) : list str :=
  map strip (concat (map (split nl) texts)).

(** ** The skill loader of [skill_loader.py] *)

(** The dataclass [Skill], with the types its fields are declared
    with; [directory] is the path of the skill's directory. *)
Record Skill : Type := mkSkill {
  name : str;
  description : str;
  instructions : str;
  allowed_tools : option (list str);
  model : option str;
  directory : option str
}.

(** [SkillLoader._skills]: a dict from names to skills, in insertion
    order. *)
Definition Registry : Type := list (str * Skill).

(** [d[k] = v]: the value of an existing key is replaced where the key
    stands, a new key goes to the end. *)
Fixpoint dict_set (d : Registry) (k : str) (v : Skill) : Registry :=
  match d with
  | [] => [(k, v)]
  | (k', v') :: rest =>
      if str_eqb k' k then (k', v) :: rest
      else (k', v') :: dict_set rest k v
  end.

(** [d.get(k)]. *)
Fixpoint dict_get (d : Registry) (k : str) : option Skill :=
  match d with
  | [] => None
  | (k', v') :: rest => if str_eqb k' k then Some v' else dict_get rest k
  end.

(** An entry of [skills_dir.iterdir()]: whether it is a directory,
    whether it holds a SKILL.md, and what [_parse_skill_file] returns
    for that file (a skill, or [None] after a warning). *)
Record SkillDir : Type := mkSkillDir {
  is_dir : bool;
  skill_file_exists : bool;
  parsed : option Skill
}.

(** Body of the loop of [load_all], lines 64-69. *)
Definition load_entry (skills : Registry) (entry : SkillDir) : Registry :=
  if is_dir entry then
    if skill_file_exists entry then
      match parsed entry with
      | Some skill => dict_set skills (name skill) skill
      | None => skills
      end
    else skills
  else skills.

(** [load_all], lines 58-71: [skills_dir] is [None] when the directory
    does not exist and its entries in iteration order otherwise; the
    result is the dict returned and the loader's [_skills] afterwards. *)
Definition load_all (skills_dir : option (list SkillDir)) (skills : Registry)
  : Registry * Registry :=
  match skills_dir with
  | None => ([], skills)
  | Some entries =>
      let loaded := fold_left load_entry entries skills in
      (loaded, loaded)
  end.

Definition get_skill (skills : Registry) (n : str) : option Skill :=
  dict_get skills n.

(** The skills a directory listing registers, in order. *)
Definition registered (entries : list SkillDir) : list Skill :=
  flat_map
    (fun entry =>
       if is_dir entry && skill_file_exists entry
       then match parsed entry with Some skill => [skill] | None => [] end
       else [])
    entries.

(** [s.split()]: the maximal runs of non-whitespace characters; [cur]
    holds the run being read, last character first. *)
Fixpoint words_from (s : str) (cur : str) : list str :=
  match s with
  | [] => if truthy cur then [rev cur] else []
  | c :: s' =>
      if isspace c
      then (if truthy cur then rev cur :: words_from s' [] else words_from s' [])
      else words_from s' (c :: cur)
  end.

Definition split_words (s : str) : list str := words_from s [].

Definition str_mem (x : str) (l : list str) : bool := existsb (str_eqb x) l.

(** The elements of [set(l)], each once. *)
Fixpoint dedupe (l : list str) : list str :=
  match l with
  | [] => []
  | x :: rest => if str_mem x rest then dedupe rest else x :: dedupe rest
  end.

(** [len(set(a) & set(b))]. *)
Definition overlap_count (a b : list str) : nat :=
  List.length (filter (fun x => str_mem x b) (dedupe a)).

(** [sub in s]. *)
Fixpoint contains (s sub : str) : bool :=
  if startswith s sub then true
  else match s with
       | [] => false
       | _ :: s' => contains s' sub
       end.

(** Lines 139-141: the words the description and the input share. *)
Definition description_overlap (user_lower : str) (skill : Skill) : nat :=
  overlap_count (split_words (lower (description skill)))
                (split_words user_lower).

(** Line 144. *)
Definition name_in_input (user_lower : str) (skill : Skill) : bool :=
  contains user_lower (replace (name skill) (lit "-") (lit " ")).

(** Lines 139-145: the score of one skill. *)
Definition skill_score (user_lower : str) (skill : Skill) : nat :=
  let overlap := description_overlap user_lower skill in
  if name_in_input user_lower skill then overlap + 5 else overlap.

(** Body of the loop of [match_skill], lines 137-149, on the pair
    [(best_match, best_score)]. *)
Definition match_step (user_lower : str) (best : option Skill * nat)
    (skill : Skill) : option Skill * nat :=
  let overlap := skill_score user_lower skill in
  if snd best <? overlap then (Some skill, overlap) else best.

Definition match_skill (skills : Registry) (user_input : str)
  : option Skill :=
  let user_lower := lower user_input in
  let best := fold_left (match_step user_lower) (map snd skills) (None, 0) in
  if 0 <? snd best then fst best else None.

(** Skills used as concrete inputs. *)
Definition paper_skill : Skill :=
  mkSkill (lit "paper-reader") (lit "Read and summarize academic papers")
          (lit "Use the download script.") None None None.

Definition review_skill : Skill :=
  mkSkill (lit "Code-Review") (lit "Review a code change")
          (lit "Read the diff.") (Some [lit "Read"; lit "Bash"]) None None.

Definition paper_skill_v2 : Skill :=
  mkSkill (lit "paper-reader") (lit "Read papers, second edition")
          (lit "Use the new script.") None None None.

(** ** Invariants of the segmentation used by the further properties *)

(** The titles of a list of sections: headings, except that the first
    may be the initial "Beginning". *)
Definition titles_ok (secs : list SectionDict) : Prop :=
  forall i s,
    nth_error secs i = Some s ->
    section_pattern_match (sec_title s) = true \/
    (i = 0 /\ sec_title s = lit "Beginning").

Definition titles_inv (st : LoopState) : Prop :=
  titles_ok (sections st) /\
  (section_pattern_match (cur_title (current_section st)) = true \/
   (cur_title (current_section st) = lit "Beginning" /\ sections st = [])).

(** [groups] are the content lines of the sections [secs], section by
    section. *)
Definition grouped (secs : list SectionDict) (groups : list (list str))
  : Prop :=
  map sec_content secs = map (join [nl]) groups /\
  Forall (fun g => g <> []) groups.

(** After the lines [seen], the content lines of the sections appended
    so far and of the current section are the body lines seen, in
    order. *)
Definition lines_inv (st : LoopState) (seen : list str) : Prop :=
  exists groups,
    grouped (sections st) groups /\
    concat groups ++ cur_content (current_section st) =
    filter body_line (map strip seen).

(** The invariant of the loop of [match_skill] after the skills [seen]:
    either nothing scored yet, or the best match is the first skill of
    [seen] with the highest score, which is positive. *)
Definition best_inv (score : Skill -> nat) (seen : list Skill)
    (best : option Skill * nat) : Prop :=
  (fst best = None /\ snd best = 0 /\
   forall t, In t seen -> score t = 0) \/
  (exists s before after,
      fst best = Some s /\ seen = before ++ s :: after /\
      snd best = score s /\ 0 < score s /\
      (forall t, In t before -> score t < score s) /\
      (forall t, In t after -> score t <= score s)).

(** A character that [str.lower] changes: a capital letter. *)
Definition has_capital (s : str) : Prop :=
  exists c, In c s /\ lower_char c <> c.

(** The skill of a listing that [get_skill] finds under [n] after
    [load_all]: the last one registered with that name. *)
Definition last_registered (entries : list SkillDir) (n : str)
  : option Skill :=
  match rev (filter (fun s => str_eqb (name s) n) (registered entries)) with
  | s :: _ => Some s
  | [] => None
  end.

(** The part of the loop state the segmentation reads and writes. *)
Definition segmentation (st : LoopState) : list SectionDict * Current :=
  (sections st, current_section st).

(** ** Regular expressions: the matcher decides the language *)

Lemma nullable_lang (r : regex) : nullable r = true <-> lang r [].
Proof.
  induction r as [| | p | r1 IH1 r2 IH2 | r1 IH1 r2 IH2 | r IH]; simpl.
  - split; [discriminate | intros H; inversion H].
  - split; [constructor | reflexivity].
  - split; [discriminate | intros H; inversion H].
  - rewrite andb_true_iff, IH1, IH2. split.
    + intros [H1 H2]. exact (lang_cat _ _ [] [] H1 H2).
    + intros H. inversion H as [| | a b s1 s2 H1 H2 E1 E2 | | | |]; subst.
      apply app_eq_nil in E2. destruct E2; subst. now split.
  - rewrite orb_true_iff, IH1, IH2. split.
    + intros [H | H]; [now apply lang_alt_l | now apply lang_alt_r].
    + intros H. inversion H; subst; [now left | now right].
  - split; [constructor | reflexivity].
Qed.

Lemma lang_star_cons (r : regex) (c : ascii) (s : str) :
  lang (Star r) (c :: s) ->
  exists s1 s2, s = s1 ++ s2 /\ lang r (c :: s1) /\ lang (Star r) s2.
Proof.
  intros H. remember (Star r) as r' eqn:Er. remember (c :: s) as t eqn:Et.
  revert s Et.
  induction H as [| | | | | | r0 s1 s2 H1 _ H2 IH2]; intros u Et;
    try discriminate.
  injection Er as ->.
  destruct s1 as [| a s1'].
  - simpl in Et. now apply IH2.
  - simpl in Et. injection Et as -> <-. now exists s1', s2.
Qed.

Lemma deriv_lang (c : ascii) (r : regex) :
  forall s, lang (deriv c r) s <-> lang r (c :: s).
Proof.
  induction r as [| | p | r1 IH1 r2 IH2 | r1 IH1 r2 IH2 | r IH];
    intros s; simpl.
  - split; intros H; inversion H.
  - split; intros H; inversion H.
  - destruct (p c) eqn:Hp; split; intros H.
    + inversion H; subst. now constructor.
    + inversion H; subst. constructor.
    + inversion H.
    + inversion H; subst. congruence.
  - assert (Hcat : lang (Cat (deriv c r1) r2) s ->
                   lang (Cat r1 r2) (c :: s)).
    { intros H. inversion H as [| | a b s1 s2 H1 H2 E1 E2 | | | |]; subst.
      apply IH1 in H1. exact (lang_cat _ _ (c :: s1) s2 H1 H2). }
    assert (Hinv : lang (Cat r1 r2) (c :: s) ->
                   lang (Cat (deriv c r1) r2) s \/
                   (lang r1 [] /\ lang r2 (c :: s))).
    { intros H. inversion H as [| | a b s1 s2 H1 H2 E1 E2 | | | |]; subst.
      destruct s1 as [| a1 s1'].
      - right. simpl in E2. subst. now split.
      - left. simpl in E2. injection E2 as -> <-.
        apply IH1 in H1. now constructor. }
    destruct (nullable r1) eqn:Hn.
    + split; intros H.
      * inversion H; subst; [now apply Hcat |].
        apply IH2 in H3. apply nullable_lang in Hn.
        exact (lang_cat _ _ [] (c :: s) Hn H3).
      * destruct (Hinv H) as [H' | [_ H']];
          [now apply lang_alt_l | apply lang_alt_r; now apply IH2].
    + split; intros H; [now apply Hcat |].
      destruct (Hinv H) as [H' | [H' _]]; [exact H' |].
      apply nullable_lang in H'. congruence.
  - split; intros H; inversion H; subst.
    + apply lang_alt_l. now apply IH1.
    + apply lang_alt_r. now apply IH2.
    + apply lang_alt_l. now apply IH1.
    + apply lang_alt_r. now apply IH2.
  - split; intros H.
    + inversion H as [| | a b s1 s2 H1 H2 E1 E2 | | | |]; subst.
      apply IH in H1. exact (lang_star_app _ (c :: s1) s2 H1 H2).
    + apply lang_star_cons in H. destruct H as (s1 & s2 & -> & H1 & H2).
      apply IH in H1. now constructor.
Qed.

Lemma re_match_lang (s : str) :
  forall r, re_match r s = true <->
            exists p rest, s = p ++ rest /\ lang r p.
Proof.
  induction s as [| c s IH]; intros r; simpl.
  - destruct (nullable r) eqn:Hn.
    + split; [| reflexivity]. intros _. exists [], [].
      split; [reflexivity | now apply nullable_lang].
    + split; [discriminate |]. intros (p & rest & E & H).
      symmetry in E. apply app_eq_nil in E. destruct E; subst.
      apply nullable_lang in H. congruence.
  - destruct (nullable r) eqn:Hn.
    + split; [| reflexivity]. intros _. exists [], (c :: s).
      split; [reflexivity | now apply nullable_lang].
    + rewrite IH. split.
      * intros (p & rest & -> & H). exists (c :: p), rest.
        split; [reflexivity | now apply deriv_lang].
      * intros (p & rest & E & H). destruct p as [| a p'].
        -- apply nullable_lang in H. congruence.
        -- simpl in E. injection E as <- ->. exists p', rest.
           split; [reflexivity | now apply deriv_lang].
Qed.

Lemma lang_cat_iff (r1 r2 : regex) (s : str) :
  lang (Cat r1 r2) s <->
  exists s1 s2, s = s1 ++ s2 /\ lang r1 s1 /\ lang r2 s2.
Proof.
  split.
  - intros H. inversion H; subst. eauto.
  - intros (s1 & s2 & -> & H1 & H2). now constructor.
Qed.

Lemma lang_alt_iff (r1 r2 : regex) (s : str) :
  lang (Alt r1 r2) s <-> lang r1 s \/ lang r2 s.
Proof.
  split.
  - intros H. inversion H; subst; auto.
  - intros [H | H]; [now apply lang_alt_l | now apply lang_alt_r].
Qed.

Lemma lang_void_iff (s : str) : lang Void s <-> False.
Proof. split; [intros H; inversion H | tauto]. Qed.

Lemma lang_eps_iff (s : str) : lang Eps s <-> s = [].
Proof.
  split; [intros H; now inversion H | intros ->; constructor].
Qed.

Lemma lang_chr_iff (p : ascii -> bool) (s : str) :
  lang (Chr p) s <-> exists c, s = [c] /\ p c = true.
Proof.
  split.
  - intros H. inversion H; subst. eauto.
  - intros (c & -> & H). now constructor.
Qed.

Lemma lang_opt_iff (r : regex) (s : str) :
  lang (opt r) s <-> s = [] \/ lang r s.
Proof. unfold opt. now rewrite lang_alt_iff, lang_eps_iff. Qed.

Lemma lang_star_chr (p : ascii -> bool) (s : str) :
  lang (Star (Chr p)) s <-> forallb p s = true.
Proof.
  split.
  - intros H. remember (Star (Chr p)) as r eqn:Er.
    induction H as [| | | | | | r0 s1 s2 H1 _ H2 IH2]; try discriminate.
    + reflexivity.
    + injection Er as ->. rewrite forallb_app, (IH2 eq_refl), andb_true_r.
      inversion H1; subst. simpl. now rewrite H0.
  - induction s as [| c s IH]; simpl; intros H.
    + constructor.
    + apply andb_true_iff in H. destruct H as [Hc Hs].
      apply (lang_star_app _ [c] s); [now constructor | now apply IH].
Qed.

Lemma lang_plus_chr (p : ascii -> bool) (s : str) :
  lang (plus (Chr p)) s <-> s <> [] /\ forallb p s = true.
Proof.
  unfold plus. rewrite lang_cat_iff. split.
  - intros (s1 & s2 & -> & H1 & H2).
    apply lang_chr_iff in H1. destruct H1 as (c & -> & Hc).
    apply lang_star_chr in H2. simpl. rewrite Hc, H2. now split.
  - intros [Hne H]. destruct s as [| c s]; [congruence |].
    simpl in H. apply andb_true_iff in H. destruct H as [Hc Hs].
    exists [c], s. repeat split.
    + now constructor.
    + now apply lang_star_chr.
Qed.

Lemma lang_chars (l s : str) :
  lang (fold_right (fun c r => Cat (ci c) r) Eps l) s <-> lower s = l.
Proof.
  revert s. induction l as [| c l IH]; intros s; simpl.
  - rewrite lang_eps_iff. destruct s; simpl; split; congruence.
  - rewrite lang_cat_iff. split.
    + intros (s1 & s2 & -> & H1 & H2).
      apply lang_chr_iff in H1. destruct H1 as (x & -> & Hx).
      apply Ascii.eqb_eq in Hx. apply IH in H2. simpl. congruence.
    + destruct s as [| x s]; simpl; [discriminate |].
      intros E. injection E as Hx Hs. exists [x], s. repeat split.
      * constructor. now apply Ascii.eqb_eq.
      * now apply IH.
Qed.

Lemma lang_word (w : string) (s : str) :
  lang (word w) s <-> lower s = lit w.
Proof. apply lang_chars. Qed.

Lemma lower_app (a b : str) : lower (a ++ b) = lower a ++ lower b.
Proof. apply map_app. Qed.

Lemma lang_plural (w : string) (s : str) :
  lang (Cat (word w) (opt (ci "s"%char))) s <->
  lower s = lit w \/ lower s = lit w ++ lit "s".
Proof.
  rewrite lang_cat_iff. split.
  - intros (s1 & s2 & -> & H1 & H2).
    apply lang_word in H1. apply lang_opt_iff in H2.
    rewrite lower_app, H1. destruct H2 as [-> | H2].
    + left. apply app_nil_r.
    + right. apply lang_chr_iff in H2. destruct H2 as (x & -> & Hx).
      apply Ascii.eqb_eq in Hx. simpl. now rewrite Hx.
  - intros [H | H].
    + exists s, []. rewrite app_nil_r. repeat split.
      * now apply lang_word.
      * apply lang_opt_iff. now left.
    + unfold lower in H. apply map_eq_app in H.
      destruct H as (s1 & s2 & -> & H1 & H2).
      exists s1, s2. repeat split.
      * now apply lang_word.
      * apply lang_opt_iff. right.
        destruct s2 as [| x [| y s2]]; try discriminate.
        simpl in H2. injection H2 as Hx.
        constructor. now apply Ascii.eqb_eq.
Qed.

Lemma lang_related_work (s : str) :
  lang (Cat (word "related") (Cat (Star space) (word "work"))) s <->
  exists r ws k,
    s = r ++ ws ++ k /\ lower r = lit "related" /\
    forallb isspace ws = true /\ lower k = lit "work".
Proof.
  rewrite lang_cat_iff. split.
  - intros (r & t & -> & Hr & Ht). apply lang_cat_iff in Ht.
    destruct Ht as (ws & k & -> & Hws & Hk).
    exists r, ws, k. repeat split.
    + now apply lang_word.
    + now apply lang_star_chr.
    + now apply lang_word.
  - intros (r & ws & k & -> & Hr & Hws & Hk).
    exists r, (ws ++ k). repeat split.
    + now apply lang_word.
    + apply lang_cat_iff. exists ws, k. repeat split.
      * now apply lang_star_chr.
      * now apply lang_word.
Qed.

Lemma lang_numeral_prefix (pre : str) :
  lang (opt (Cat (plus digit) (Cat (opt dot) (Star space)))) pre <->
  numeral_prefix pre.
Proof.
  unfold numeral_prefix. rewrite lang_opt_iff. split.
  - intros [-> | H]; [now left | right].
    apply lang_cat_iff in H. destruct H as (ds & t & -> & Hds & Ht).
    apply lang_cat_iff in Ht. destruct Ht as (d & ws & -> & Hd & Hws).
    apply lang_plus_chr in Hds. destruct Hds as [Hne Hds].
    apply lang_star_chr in Hws. apply lang_opt_iff in Hd.
    exists ds, d, ws. repeat split; try assumption.
    destruct Hd as [-> | Hd]; [now left | right].
    apply lang_chr_iff in Hd. destruct Hd as (c & -> & Hc).
    apply Ascii.eqb_eq in Hc. now subst.
  - intros [-> | (ds & d & ws & -> & Hne & Hds & Hd & Hws)];
      [now left | right].
    apply lang_cat_iff. exists ds, (d ++ ws). repeat split.
    + now apply lang_plus_chr.
    + apply lang_cat_iff. exists d, ws. repeat split.
      * apply lang_opt_iff. destruct Hd as [-> | ->]; [now left | right].
        constructor. reflexivity.
      * now apply lang_star_chr.
Qed.

Lemma lang_section_names (w : str) :
  lang (alts [ word "abstract"; word "introduction";
               Cat (word "related") (Cat (Star space) (word "work"));
               word "background"; word "methodology"; word "method";
               word "methods"; word "approach";
               Cat (word "experiment") (opt (ci "s"%char));
               Cat (word "result") (opt (ci "s"%char));
               word "discussion"; word "conclusion"; word "conclusions";
               word "references";
               Cat (word "acknowledgement") (opt (ci "s"%char));
               word "appendix" ]) w <->
  heading_word w.
Proof.
  unfold heading_word, vocabulary, alts. cbn [fold_right In].
  rewrite !lang_alt_iff, !lang_plural, !lang_word, lang_related_work,
    lang_void_iff.
  split.
  - intros H.
    repeat (destruct H as [H | H]);
      try (right; exact H); try contradiction;
      left; rewrite H; auto 30.
  - intros [H | H]; [| auto 10].
    repeat (destruct H as [H | H]); try contradiction;
      symmetry in H; auto 30.
Qed.

Lemma section_pattern_shape (line : str) :
  section_pattern_match line = true <-> heading_shape line.
Proof.
  unfold section_pattern_match, heading_shape, section_pattern.
  rewrite re_match_lang. split.
  - intros (p & rest & -> & H). apply lang_cat_iff in H.
    destruct H as (pre & w & -> & Hpre & Hw).
    exists pre, w, rest. rewrite <- app_assoc. repeat split.
    + now apply lang_numeral_prefix.
    + now apply lang_section_names.
  - intros (pre & w & rest & -> & Hpre & Hw).
    exists (pre ++ w), rest. rewrite <- app_assoc. repeat split.
    apply lang_cat_iff. exists pre, w. repeat split.
    + now apply lang_numeral_prefix.
    + now apply lang_section_names.
Qed.

(** ** The page loop: title *)

Lemma title_scan_find (lines : list str) :
  title_scan lines = find title_ok (map strip lines).
Proof.
  induction lines as [| line rest IH]; simpl; [reflexivity |].
  unfold title_ok at 1. now destruct (_ && _).
Qed.

Lemma line_step_title (st : LoopState) (line : str) :
  title (line_step st line) = title st /\
  full_text (line_step st line) = full_text st.
Proof.
  unfold line_step.
  destruct (section_pattern_match (strip line)); [now split |].
  destruct (truthy (strip line)); now split.
Qed.

Lemma fold_line_step_title (lines : list str) :
  forall st,
    title (fold_left line_step lines st) = title st /\
    full_text (fold_left line_step lines st) = full_text st.
Proof.
  induction lines as [| line rest IH]; intros st; simpl; [now split |].
  destruct (IH (line_step st line)) as [Ht Hf].
  destruct (line_step_title st line) as [Ht' Hf'].
  split; congruence.
Qed.

Lemma page_step_title (n : nat) (text : str) (st : LoopState) :
  title (page_step n text st) = title_step n text (title st).
Proof.
  unfold page_step.
  now destruct (fold_line_step_title (split nl text)
    (mkLoop (full_text st ++ [text]) (sections st) (current_section st)
            (title_step n text (title st)))) as [-> _].
Qed.

Lemma pages_loop_title (doc : list Page) :
  forall n st st',
    n <> 0 -> pages_loop n doc st = Ok st' -> title st' = title st.
Proof.
  induction doc as [| page rest IH]; intros n st st' Hn H; simpl in H.
  - now injection H as <-.
  - destruct page as [text | e]; simpl in H; [| discriminate].
    apply IH in H; [| discriminate].
    rewrite H, page_step_title. unfold title_step.
    destruct n; [congruence | reflexivity].
Qed.

Lemma first_page_title_step (text : str) :
  title_step 0 text None = first_page_title text.
Proof.
  unfold title_step, first_page_title. simpl.
  rewrite title_scan_find. now destruct (find _ _).
Qed.

Lemma pages_loop_total (texts : list str) :
  forall n st, exists st', pages_loop n (map Ok texts) st = Ok st'.
Proof.
  induction texts as [| text rest IH]; intros n st; simpl.
  - now exists st.
  - apply IH.
Qed.

Lemma extract_doc_title (path text : str) (rest : list Page)
    (r : Extracted) :
  extract_doc path (Ok text :: rest) = Ok r ->
  r_title r = first_page_title text.
Proof.
  unfold extract_doc. simpl.
  destruct (pages_loop 1 rest (page_step 0 text initial_state))
    as [st |] eqn:Hloop; [| discriminate].
  intros H. injection H as <-. simpl.
  apply pages_loop_title in Hloop; [| discriminate].
  now rewrite Hloop, page_step_title, <- first_page_title_step.
Qed.

Lemma extract_doc_total (path : str) (texts : list str) :
  exists r, extract_doc path (map Ok texts) = Ok r.
Proof.
  unfold extract_doc.
  destruct (pages_loop_total texts 0 initial_state) as [st ->]. eauto.
Qed.

(** ** The page loop: sections *)



Lemma truthy_filled {A : Type} (l : list A) : truthy l = true <-> l <> [].
Proof. destruct l; simpl; split; congruence. Qed.





(** ** [extract_text] in a world *)

Lemma extract_text_of_doc (w : World) (path : str) (data : bytes)
    (doc : list Page) :
  files w path = Some data -> fitz_parse w data = Ok doc ->
  extract_text path w = (extract_doc path doc, w).
Proof.
  intros Hf Hp. unfold extract_text, bind, fitz_open. rewrite Hf, Hp.
  now destruct doc.
Qed.

Lemma my_paper_extract (path : str) :
  extract_doc path [Ok my_paper_text] =
  Ok (mkExtracted (Some (lit "This is the abstract.")) path 1
        my_paper_text
        [ mkSection (lit "Beginning") (lit "My Paper");
          mkSection (lit "Abstract") (lit "This is the abstract.");
          mkSection (lit "Conclusion") (lit "The end.") ]).
Proof. vm_compute. reflexivity. Qed.

(** C1, as the code has it: a one-page document whose page text is "My
    Paper", a blank line, "Abstract", "This is the abstract.", a blank
    line, "Conclusion", "The end." is extracted with pages = 1, with the
    title "This is the abstract." (the first of the first five lines that
    is longer than 10 characters; "My Paper" has 8) and with three
    sections: "Beginning" holding "My Paper", then "Abstract" and
    "Conclusion" with their lines. *)
Theorem extract_text_my_paper (w : World) (path : str) (data : bytes) :
  files w path = Some data ->
  fitz_parse w data = Ok [Ok my_paper_text] ->
  extract_text path w =
  (Ok (mkExtracted (Some (lit "This is the abstract.")) path 1
         my_paper_text
         [ mkSection (lit "Beginning") (lit "My Paper");
           mkSection (lit "Abstract") (lit "This is the abstract.");
           mkSection (lit "Conclusion") (lit "The end.") ]), w).
Proof.
  intros Hf Hp. rewrite (extract_text_of_doc w path data _ Hf Hp).
  now rewrite my_paper_extract.
Qed.

Lemma extract_text_my_paper_witness :
  extract_text (lit "paper.pdf") my_paper_world =
  (Ok (mkExtracted (Some (lit "This is the abstract.")) (lit "paper.pdf") 1
         my_paper_text
         [ mkSection (lit "Beginning") (lit "My Paper");
           mkSection (lit "Abstract") (lit "This is the abstract.");
           mkSection (lit "Conclusion") (lit "The end.") ]), my_paper_world).
Proof.
  apply (extract_text_my_paper my_paper_world (lit "paper.pdf") pdf_bytes);
    reflexivity.
Defined.

(** C1 as stated fails: on that document the extraction does not give
    the title "My Paper" with exactly the sections "Abstract" and
    "Conclusion". *)
Lemma my_paper_claimed_result_fails :
  ~ exists r,
      extract_text (lit "paper.pdf") my_paper_world = (Ok r, my_paper_world) /\
      r_title r = Some (lit "My Paper") /\
      r_pages r = 1 /\
      r_sections r =
        [ mkSection (lit "Abstract") (lit "This is the abstract.");
          mkSection (lit "Conclusion") (lit "The end.") ].
Proof.
  intros (r & H & Ht & _).
  rewrite (extract_text_of_doc my_paper_world (lit "paper.pdf") pdf_bytes
             [Ok my_paper_text] eq_refl eq_refl) in H.
  rewrite my_paper_extract in H. injection H as <-. discriminate Ht.
Qed.

(** C2, as the code has it: the title comes from the first page alone;
    it is the first line longer than 10 and shorter than 200 characters,
    once trimmed, among the first five lines of the trimmed page text,
    blank lines counting among the five; when none of them qualifies the
    title is absent and the extraction still succeeds.  For the lines
    "Hi", 201 times "A", "A Valid Title Here" the title is "A Valid
    Title Here". *)
Theorem title_from_first_five_lines :
  (forall path text rest r,
      extract_doc path (Ok text :: rest) = Ok r ->
      r_title r = find title_ok (map strip (firstn 5 (split nl (strip text)))))
  /\ (forall path text texts,
        exists r,
          extract_doc path (map Ok (text :: texts)) = Ok r /\
          r_title r =
            find title_ok (map strip (firstn 5 (split nl (strip text)))))
  /\ (forall path rest r,
        extract_doc path (Ok title_boundary_text :: rest) = Ok r ->
        r_title r = Some (lit "A Valid Title Here")).
Proof.
  split; [| split].
  - intros path text rest r H. exact (extract_doc_title _ _ _ _ H).
  - intros path text texts.
    destruct (extract_doc_total path (text :: texts)) as [r Hr].
    exists r. split; [assumption |].
    exact (extract_doc_title _ _ _ _ Hr).
  - intros path rest r H.
    rewrite (extract_doc_title _ _ _ _ H). vm_compute. reflexivity.
Qed.

Lemma title_from_first_five_lines_witness :
  extract_doc (lit "paper.pdf") [Ok title_boundary_text] =
  Ok (mkExtracted (Some (lit "A Valid Title Here")) (lit "paper.pdf") 1
        title_boundary_text
        [mkSection (lit "Beginning") title_boundary_text]) /\
  r_title
    (mkExtracted (Some (lit "A Valid Title Here")) (lit "paper.pdf") 1
       title_boundary_text
       [mkSection (lit "Beginning") title_boundary_text]) =
  Some (lit "A Valid Title Here").
Proof.
  split; [vm_compute; reflexivity |].
  apply (proj2 (proj2 title_from_first_five_lines) (lit "paper.pdf") []).
  vm_compute. reflexivity.
Defined.

(** C2 as stated fails: with "Hi", four blank lines and then "A Valid
    Title Here", the first five non-empty lines hold a candidate, but the
    code looks at "Hi" and the four blank lines only and finds no title. *)
Lemma title_scan_counts_blank_lines :
  spec_title blank_lines_text = Some (lit "A Valid Title Here") /\
  exists r,
    extract_doc (lit "paper.pdf") [Ok blank_lines_text] = Ok r /\
    r_title r = None.
Proof.
  split; [vm_compute; reflexivity |].
  eexists. split; [vm_compute; reflexivity | reflexivity].
Qed.

(** C6, as the code has it: a trimmed line is a heading exactly when it
    starts with an optional prefix (one or more digits, then at most one
    dot, then any number of whitespace characters) followed, letter case
    ignored, by a name of the vocabulary or by "related" and "work" with
    any number of whitespace characters, none included, between them;
    the line may go on after the name.  At a heading the whole trimmed
    line is the title of the new section. *)
Theorem heading_classification :
  (forall line, section_pattern_match line = true <-> heading_shape line)
  /\ (forall st line,
        section_pattern_match (strip line) = true ->
        cur_title (current_section (line_step st line)) = strip line).
Proof.
  split.
  - intros line. apply section_pattern_shape.
  - intros st line H. unfold line_step. now rewrite H.
Qed.

Lemma heading_classification_witness :
  section_pattern_match (strip (lit " 2 Methods")) = true /\
  cur_title (current_section (line_step initial_state (lit " 2 Methods"))) =
  lit "2 Methods".
Proof.
  split; [reflexivity |].
  exact (proj2 heading_classification initial_state (lit " 2 Methods")
           eq_refl).
Defined.

(** C6 as stated fails: "2 Methods" (a numeral with no dot) and
    "Relatedwork" (no space) are headings for the code, and are not for
    the wording of the claim. *)
Lemma heading_claim_fails :
  (section_pattern_match (lit "2 Methods") = true /\
   claimed_heading (lit "2 Methods") = false) /\
  (section_pattern_match (lit "Relatedwork") = true /\
   claimed_heading (lit "Relatedwork") = false).
Proof. repeat split; vm_compute; reflexivity. Qed.

(** C9: a document with no page is extracted without error: no title,
    0 pages, no section, empty text. *)
Theorem extract_text_zero_pages (w : World) (path : str) (data : bytes) :
  files w path = Some data ->
  fitz_parse w data = Ok [] ->
  extract_text path w = (Ok (mkExtracted None path 0 [] []), w).
Proof.
  intros Hf Hp. now rewrite (extract_text_of_doc w path data _ Hf Hp).
Qed.

Lemma extract_text_zero_pages_witness :
  extract_text (lit "empty.pdf")
    (with_file (lit "empty.pdf") pdf_bytes empty_world) =
  (Ok (mkExtracted None (lit "empty.pdf") 0 [] []),
   with_file (lit "empty.pdf") pdf_bytes empty_world).
Proof.
  apply (extract_text_zero_pages
           (with_file (lit "empty.pdf") pdf_bytes empty_world)
           (lit "empty.pdf") pdf_bytes); reflexivity.
Defined.

(** ** The resolvers *)

Lemma str_eqb_refl (a : str) : str_eqb a a = true.
Proof.
  induction a as [| c a IH]; simpl; [reflexivity |].
  now rewrite Ascii.eqb_refl.
Qed.

Lemma str_eqb_eq (a b : str) : str_eqb a b = true <-> a = b.
Proof.
  revert b. induction a as [| x a IH]; intros [| y b]; simpl;
    try (split; [discriminate | discriminate]); [now split |].
  rewrite andb_true_iff, Ascii.eqb_eq, IH. split.
  - now intros [-> ->].
  - intros H. injection H as -> ->. now split.
Qed.

Lemma str_eqb_neq (a b : str) : a <> b -> str_eqb a b = false.
Proof.
  intros H. destruct (str_eqb a b) eqn:E; [| reflexivity].
  apply str_eqb_eq in E. contradiction.
Qed.

Lemma download_arxiv_hit (arxiv_id cache_dir : str) (w : World)
    (data : bytes) :
  files w (arxiv_cache_path arxiv_id cache_dir) = Some data ->
  download_arxiv arxiv_id cache_dir w =
  (Ok (arxiv_cache_path arxiv_id cache_dir), w).
Proof.
  intros H. unfold download_arxiv, bind, os_path_exists. now rewrite H.
Qed.

Lemma download_arxiv_success (arxiv_id cache_dir : str) (w0 w1 : World)
    (p : str) :
  download_arxiv arxiv_id cache_dir w0 = (Ok p, w1) ->
  p = arxiv_cache_path arxiv_id cache_dir /\
  exists data, files w1 p = Some data.
Proof.
  unfold download_arxiv, bind, os_path_exists.
  destruct (files w0 (arxiv_cache_path arxiv_id cache_dir)) as [d |] eqn:Hf.
  - unfold ret. intros H. injection H as <- <-. eauto.
  - unfold arxiv_search, bind, log_net. cbn [arxiv_index].
    destruct (arxiv_index w0 (clean_arxiv_id arxiv_id)) as [results | e];
      [| discriminate].
    destruct results as [| paper _]; [discriminate |].
    unfold download_pdf, bind, log_net.
    destruct paper as [d | e]; [| discriminate].
    unfold write_file. cbn [write_error].
    destruct (write_error w0 _); [discriminate |].
    unfold ret. intros H. injection H as <- <-. split; [reflexivity |].
    exists d. cbn [files]. unfold arxiv_cache_path.
    now rewrite str_eqb_refl.
Qed.

(** C7: when the cache file of the cleaned identifier exists, resolving
    the identifier returns the cache path and leaves the world as it
    was, so no search and no download is logged; and a resolution that
    follows a successful one is such a case and returns the same path. *)
Theorem download_arxiv_idempotent :
  (forall arxiv_id cache_dir w data,
      files w (arxiv_cache_path arxiv_id cache_dir) = Some data ->
      download_arxiv arxiv_id cache_dir w =
        (Ok (arxiv_cache_path arxiv_id cache_dir), w) /\
      net_log (snd (download_arxiv arxiv_id cache_dir w)) = net_log w)
  /\ (forall arxiv_id cache_dir w0 w1 p,
        download_arxiv arxiv_id cache_dir w0 = (Ok p, w1) ->
        download_arxiv arxiv_id cache_dir w1 = (Ok p, w1) /\
        net_log (snd (download_arxiv arxiv_id cache_dir w1)) = net_log w1).
Proof.
  split.
  - intros arxiv_id cache_dir w data H.
    now rewrite (download_arxiv_hit _ _ _ _ H).
  - intros arxiv_id cache_dir w0 w1 p H.
    apply download_arxiv_success in H. destruct H as [-> [data Hd]].
    now rewrite (download_arxiv_hit _ _ _ _ Hd).
Qed.

Lemma download_arxiv_idempotent_witness :
  download_arxiv (lit "arXiv:2101.00001") (lit "/tmp/paper_cache")
    (snd (download_arxiv (lit "arXiv:2101.00001") (lit "/tmp/paper_cache")
            arxiv_world)) =
  (Ok (lit "/tmp/paper_cache/arxiv_2101.00001.pdf"),
   snd (download_arxiv (lit "arXiv:2101.00001") (lit "/tmp/paper_cache")
          arxiv_world)) /\
  net_log
    (snd (download_arxiv (lit "arXiv:2101.00001") (lit "/tmp/paper_cache")
            (snd (download_arxiv (lit "arXiv:2101.00001")
                    (lit "/tmp/paper_cache") arxiv_world)))) =
  [ArxivSearch (lit "2101.00001"); ArxivFetch (lit "2101.00001")].
Proof.
  apply (proj2 download_arxiv_idempotent
           (lit "arXiv:2101.00001") (lit "/tmp/paper_cache") arxiv_world).
  vm_compute. reflexivity.
Defined.

Lemma url_filename_pdf (h : Z) (url : str) :
  endswith (last_segment url) (lit ".pdf") = true ->
  url_filename h url = last_segment url.
Proof. intros H. unfold url_filename. now rewrite H. Qed.

Lemma download_url_hit (url cache_dir : str) (w : World) (data : bytes) :
  files w (os_path_join cache_dir (url_filename (process_hash w url) url))
    = Some data ->
  download_url url cache_dir w =
  (Ok (os_path_join cache_dir (url_filename (process_hash w url) url)), w).
Proof.
  intros H. unfold download_url, bind, hash, os_path_exists.
  now rewrite H.
Qed.

Lemma download_url_success (url cache_dir : str) (w0 w1 : World) (p : str) :
  download_url url cache_dir w0 = (Ok p, w1) ->
  p = os_path_join cache_dir (url_filename (process_hash w0 url) url) /\
  process_hash w1 = process_hash w0 /\
  (exists data, files w1 p = Some data) /\
  (files w0 p = None ->
   exists resp, http w0 url = Ok resp /\ files w1 p = Some (content resp)).
Proof.
  unfold download_url, bind, hash, os_path_exists.
  destruct (files w0 (os_path_join cache_dir
                        (url_filename (process_hash w0 url) url)))
    as [d |] eqn:Hf.
  - unfold ret. intros H. injection H as <- <-.
    repeat split; eauto. congruence.
  - unfold requests_get, bind, log_net. cbn [http].
    destruct (http w0 url) as [resp | e] eqn:Hh; [| discriminate].
    unfold raise_for_status.
    destruct ((400 <=? status_code resp) && (status_code resp <? 600))%Z;
      [discriminate |].
    unfold ret, write_file. cbn [write_error].
    destruct (write_error w0 _); [discriminate |].
    intros H. injection H as <- <-. cbn [files process_hash].
    rewrite str_eqb_refl. repeat split; eauto.
Qed.

(** C10: two URLs, even distinct ones, whose last path segments are
    equal and end in ".pdf" have the same cache path; after the first
    has been resolved, resolving the second returns that path and
    leaves the world as it was, so nothing is fetched, and when the
    first resolution had to fetch, the file at the path holds the body
    received for the first URL. *)
Theorem download_url_shares_cache_file (url1 url2 cache_dir : str)
    (w0 w1 : World) (p : str) :
  url1 <> url2 ->
  last_segment url1 = last_segment url2 ->
  endswith (last_segment url1) (lit ".pdf") = true ->
  download_url url1 cache_dir w0 = (Ok p, w1) ->
  p = os_path_join cache_dir (last_segment url1) /\
  download_url url2 cache_dir w1 = (Ok p, w1) /\
  net_log (snd (download_url url2 cache_dir w1)) = net_log w1 /\
  (files w0 p = None ->
   exists resp, http w0 url1 = Ok resp /\ files w1 p = Some (content resp)).
Proof.
  intros _ Hseg Hpdf H.
  apply download_url_success in H.
  destruct H as (Hp & Hseed & [data Hd] & Hfetch).
  rewrite (url_filename_pdf _ _ Hpdf) in Hp.
  assert (H2 : download_url url2 cache_dir w1 = (Ok p, w1)).
  { assert (E : os_path_join cache_dir
                  (url_filename (process_hash w1 url2) url2) = p).
    { rewrite url_filename_pdf by (now rewrite <- Hseg). congruence. }
    rewrite <- E. apply (download_url_hit _ _ _ data). now rewrite E. }
  repeat split; try assumption. now rewrite H2.
Qed.

Lemma download_url_shares_cache_file_witness :
  lit "/tmp/paper_cache/paper.pdf" =
    os_path_join (lit "/tmp/paper_cache")
                 (last_segment (lit "http://a.org/x/paper.pdf")) /\
  download_url (lit "http://b.org/paper.pdf") (lit "/tmp/paper_cache")
    (snd (download_url (lit "http://a.org/x/paper.pdf")
            (lit "/tmp/paper_cache") empty_world)) =
  (Ok (lit "/tmp/paper_cache/paper.pdf"),
   snd (download_url (lit "http://a.org/x/paper.pdf")
          (lit "/tmp/paper_cache") empty_world)) /\
  net_log
    (snd (download_url (lit "http://b.org/paper.pdf") (lit "/tmp/paper_cache")
            (snd (download_url (lit "http://a.org/x/paper.pdf")
                    (lit "/tmp/paper_cache") empty_world)))) =
  net_log (snd (download_url (lit "http://a.org/x/paper.pdf")
                  (lit "/tmp/paper_cache") empty_world)) /\
  (files empty_world (lit "/tmp/paper_cache/paper.pdf") = None ->
   exists resp,
     http empty_world (lit "http://a.org/x/paper.pdf") = Ok resp /\
     files (snd (download_url (lit "http://a.org/x/paper.pdf")
                   (lit "/tmp/paper_cache") empty_world))
           (lit "/tmp/paper_cache/paper.pdf") = Some (content resp)).
Proof.
  apply (download_url_shares_cache_file
           (lit "http://a.org/x/paper.pdf") (lit "http://b.org/paper.pdf")
           (lit "/tmp/paper_cache") empty_world).
  - discriminate.
  - reflexivity.
  - reflexivity.
  - vm_compute. reflexivity.
Defined.

(** ** [main] *)

Lemma prepare_cache_dir_ok (w w1 : World) (c : str) :
  prepare_cache_dir w = (Ok c, w1) ->
  c = cache_dir_of w /\
  net_log w1 = net_log w /\
  fitz_parse w1 = fitz_parse w /\
  (forall p, p <> c -> files w1 p = files w p) /\
  (forall p d, files w p = Some d -> files w1 p = Some d).
Proof.
  unfold prepare_cache_dir, bind, gettempdir, cache_dir_of.
  destruct (tempdir_error w); [discriminate |].
  unfold os_makedirs.
  destruct (files w (os_path_join (tempdir w) (lit "paper_cache")))
    as [d0 |] eqn:Hf.
  - destruct (dirs w _); [| discriminate].
    unfold ret. intros H. injection H as <- <-. repeat split; auto.
  - destruct (makedirs_error w _); [discriminate |].
    unfold ret. intros H. injection H as <- <-. cbn [files net_log fitz_parse].
    repeat split.
    + intros p Hp. now rewrite (str_eqb_neq _ _ Hp).
    + intros p d Hp. destruct (str_eqb p _) eqn:E; [| assumption].
      apply str_eqb_eq in E.
      assert (Hx : files w p = None) by (rewrite E; exact Hf).
      congruence.
Qed.

Lemma prepare_cache_dir_raise (w w1 : World) (e : str) :
  prepare_cache_dir w = (Raise e, w1) -> w1 = w.
Proof.
  unfold prepare_cache_dir, bind, gettempdir.
  destruct (tempdir_error w); [intros H; now injection H |].
  unfold os_makedirs.
  destruct (files w _).
  - destruct (dirs w _); [discriminate | intros H; now injection H].
  - destruct (makedirs_error w _); [intros H; now injection H | discriminate].
Qed.

Lemma main_ready (prog kind value : str) (extra : list str)
    (w w1 : World) (c : str) :
  prepare_cache_dir w = (Ok c, w1) ->
  main (prog :: kind :: value :: extra) w =
  report value (lower kind)
    ((pdf_path <- resolve (lower kind) value c ;;
      extract_text pdf_path) w1).
Proof.
  intros H. unfold main.
  change (List.length (prog :: kind :: value :: extra) <? 3) with false.
  cbv iota. now rewrite H.
Qed.

Lemma main_uncaught (prog kind value : str) (extra : list str)
    (w w1 : World) (e : str) :
  prepare_cache_dir w = (Raise e, w1) ->
  main (prog :: kind :: value :: extra) w = (uncaught, w1).
Proof.
  intros H. unfold main.
  change (List.length (prog :: kind :: value :: extra) <? 3) with false.
  cbv iota. now rewrite H.
Qed.

Lemma main_short (argv : list str) (w : World) :
  List.length argv < 3 ->
  main argv w = (mkOutcome [error_envelope usage] 1, w).
Proof.
  intros H. unfold main. apply Nat.ltb_lt in H. now rewrite H.
Qed.

(** C4, as the code has it: with fewer than two arguments after the
    program name the usage error object is printed and the status is 1;
    with two or more, the temporary directory is looked up and the cache
    directory created first (lines 130-131, before the [try]): when that
    raises, the run ends on the uncaught exception, with nothing printed
    and status 1; when it succeeds, a kind that is, in lower case,
    "arxiv", "local" or "url" selects the arXiv download, the local-file
    check or the URL download (the key word of the repository path is
    "arxiv"), and arguments after the second are ignored. *)
Theorem main_dispatch :
  (forall argv w,
      List.length argv < 3 ->
      main argv w =
      (mkOutcome
         [JObj [(lit "error",
                 JStr (lit "Usage: download_paper.py <arxiv|local|url> <source>"))]]
         1, w))
  /\ (forall prog kind value extra w cache_dir w1,
        prepare_cache_dir w = (Ok cache_dir, w1) ->
        lower kind = lit "arxiv" ->
        main (prog :: kind :: value :: extra) w =
        report value (lit "arxiv")
          ((pdf_path <- download_arxiv value cache_dir ;;
            extract_text pdf_path) w1))
  /\ (forall prog kind value extra w cache_dir w1,
        prepare_cache_dir w = (Ok cache_dir, w1) ->
        lower kind = lit "local" ->
        main (prog :: kind :: value :: extra) w =
        report value (lit "local")
          ((pdf_path <- (present <- os_path_exists value ;;
                         if negb present
                         then raise (lit "File not found: " ++ value)
                         else ret value) ;;
            extract_text pdf_path) w1))
  /\ (forall prog kind value extra w cache_dir w1,
        prepare_cache_dir w = (Ok cache_dir, w1) ->
        lower kind = lit "url" ->
        main (prog :: kind :: value :: extra) w =
        report value (lit "url")
          ((pdf_path <- download_url value cache_dir ;;
            extract_text pdf_path) w1))
  /\ (forall prog kind value extra w e w1,
        prepare_cache_dir w = (Raise e, w1) ->
        main (prog :: kind :: value :: extra) w = (mkOutcome [] 1, w))
  /\ (forall w cache_dir w1,
        prepare_cache_dir w = (Ok cache_dir, w1) ->
        cache_dir = os_path_join (tempdir w) (lit "paper_cache") /\
        net_log w1 = net_log w /\
        (forall p, p <> cache_dir -> files w1 p = files w p)).
Proof.
  repeat split.
  - intros argv w H. exact (main_short argv w H).
  - intros prog kind value extra w c w1 Hc H.
    rewrite (main_ready _ _ _ _ _ _ _ Hc), H. reflexivity.
  - intros prog kind value extra w c w1 Hc H.
    rewrite (main_ready _ _ _ _ _ _ _ Hc), H. reflexivity.
  - intros prog kind value extra w c w1 Hc H.
    rewrite (main_ready _ _ _ _ _ _ _ Hc), H. reflexivity.
  - intros prog kind value extra w e w1 H.
    rewrite (main_uncaught _ _ _ _ _ _ _ H).
    now rewrite (prepare_cache_dir_raise _ _ _ H).
  - now apply prepare_cache_dir_ok in H.
  - now apply prepare_cache_dir_ok in H.
  - intros p Hp. apply prepare_cache_dir_ok in H.
    destruct H as (_ & _ & _ & Hf & _). now apply Hf.
Qed.

Lemma main_dispatch_witness :
  main [lit "download_paper.py"; lit "ArXiv"; lit "2101.00001"] arxiv_world =
  report (lit "2101.00001") (lit "arxiv")
    ((pdf_path <- download_arxiv (lit "2101.00001") (lit "/tmp/paper_cache") ;;
      extract_text pdf_path) (snd (prepare_cache_dir arxiv_world))).
Proof.
  apply (proj1 (proj2 main_dispatch)).
  - vm_compute. reflexivity.
  - reflexivity.
Defined.

(** C4 as stated fails: the kind "repository" is not dispatched to the
    repository download; it ends in the unknown-source error, with no
    search logged, which is not what the download path gives.  A third
    positional argument is accepted: the run is the one of the first
    two.  And where the path of the cache directory is taken by a
    regular file, the kind "local" is not dispatched either: the run
    prints nothing and ends with status 1. *)
Lemma repository_kind_is_unknown :
  fst (main [lit "download_paper.py"; lit "repository"; lit "2101.00001"]
            empty_world) =
  mkOutcome [error_envelope (lit "Unknown source type: repository")] 1 /\
  net_log
    (snd (main [lit "download_paper.py"; lit "repository"; lit "2101.00001"]
               empty_world)) = [] /\
  net_log
    (snd (report (lit "2101.00001") (lit "repository")
            ((pdf_path <- download_arxiv (lit "2101.00001")
                            (lit "/tmp/paper_cache") ;;
              extract_text pdf_path)
               (snd (prepare_cache_dir empty_world))))) =
  [ArxivSearch (lit "2101.00001")] /\
  main [lit "download_paper.py"; lit "arxiv"; lit "2101.00001"; lit "more"]
       arxiv_world =
  main [lit "download_paper.py"; lit "arxiv"; lit "2101.00001"] arxiv_world /\
  main [lit "download_paper.py"; lit "local"; lit "paper.pdf"] blocked_world =
  (mkOutcome [] 1, blocked_world).
Proof. repeat split; vm_compute; reflexivity. Qed.

Lemma pages_loop_raises (doc : list Page) (e : str) :
  In (Raise e) doc ->
  forall n st, exists msg, pages_loop n doc st = Raise msg.
Proof.
  induction doc as [| page rest IH]; intros Hin n st; [contradiction |].
  simpl. destruct page as [text | e']; simpl; [| eauto].
  destruct Hin as [H | H]; [discriminate | now apply IH].
Qed.

(** C8: the stages run inside the [try], once the cache directory has
    been set up (lines 130-131).  When the resolver raises, or the
    resolver succeeds and the extraction raises (the file cannot be
    opened, or a page cannot be read), the run prints exactly one
    object, the error envelope with the message of the exception, and
    the status is 1.  Whatever the arguments and the world, a run prints
    the error envelope alone with status 1, or the result alone with
    status 0, or, only when setting up the cache directory raised,
    before any stage, nothing at all. *)
Theorem failure_gives_one_error_envelope :
  (forall prog kind value extra w cache_dir w1 msg w2,
      prepare_cache_dir w = (Ok cache_dir, w1) ->
      resolve (lower kind) value cache_dir w1 = (Raise msg, w2) ->
      main (prog :: kind :: value :: extra) w =
      (mkOutcome [JObj [(lit "error", JStr msg)]] 1, w2))
  /\ (forall prog kind value extra w cache_dir w1 p w2 msg w3,
        prepare_cache_dir w = (Ok cache_dir, w1) ->
        resolve (lower kind) value cache_dir w1 = (Ok p, w2) ->
        extract_text p w2 = (Raise msg, w3) ->
        main (prog :: kind :: value :: extra) w =
        (mkOutcome [JObj [(lit "error", JStr msg)]] 1, w3))
  /\ (forall w path,
        files w path = None ->
        exists msg, extract_text path w = (Raise msg, w))
  /\ (forall w path data msg,
        files w path = Some data -> fitz_parse w data = Raise msg ->
        extract_text path w = (Raise msg, w))
  /\ (forall w path data doc e,
        files w path = Some data -> fitz_parse w data = Ok doc ->
        In (Raise e) doc ->
        exists msg, extract_text path w = (Raise msg, w))
  /\ (forall argv w out w',
        main argv w = (out, w') ->
        (exists msg, out = mkOutcome [JObj [(lit "error", JStr msg)]] 1) \/
        (exists r,
            out = mkOutcome
                    [result_json r (nth 2 argv []) (lower (nth 1 argv []))] 0)
        \/
        (out = mkOutcome [] 1 /\
         exists e, prepare_cache_dir w = (Raise e, w'))).
Proof.
  repeat split.
  - intros prog kind value extra w c w1 msg w2 Hc H.
    rewrite (main_ready _ _ _ _ _ _ _ Hc). unfold bind. now rewrite H.
  - intros prog kind value extra w c w1 p w2 msg w3 Hc H1 H2.
    rewrite (main_ready _ _ _ _ _ _ _ Hc). unfold bind at 1.
    rewrite H1, H2. reflexivity.
  - intros w path H. unfold extract_text, bind, fitz_open. rewrite H. eauto.
  - intros w path data msg Hf Hp.
    unfold extract_text, bind, fitz_open. now rewrite Hf, Hp.
  - intros w path data doc e Hf Hp Hin.
    rewrite (extract_text_of_doc w path data doc Hf Hp).
    unfold extract_doc.
    destruct (pages_loop_raises doc e Hin 0 initial_state) as [msg ->].
    eauto.
  - intros argv w out w' H. unfold main in H.
    destruct (List.length argv <? 3).
    + injection H as <- _. left. eexists. reflexivity.
    + destruct (prepare_cache_dir w) as [[c | e] w1] eqn:Hc.
      * match type of H with
        | report _ _ ?x = _ => destruct x as [[r | e] w2]
        end; simpl in H; injection H as <- _;
          [right; left | left]; eexists; reflexivity.
      * injection H as <- <-. right. right. split; [reflexivity |].
        now exists e.
Qed.

Lemma failure_gives_one_error_envelope_witness :
  main [lit "download_paper.py"; lit "local"; lit "missing.pdf"] empty_world =
  (mkOutcome
     [JObj [(lit "error", JStr (lit "File not found: missing.pdf"))]] 1,
   snd (prepare_cache_dir empty_world)).
Proof.
  apply (proj1 failure_gives_one_error_envelope
           (lit "download_paper.py") (lit "local") (lit "missing.pdf") []
           empty_world (lit "/tmp/paper_cache")
           (snd (prepare_cache_dir empty_world))).
  - vm_compute. reflexivity.
  - vm_compute. reflexivity.
Defined.

(** ** The cache file name of a URL *)

Lemma lit_inj (a b : string) : lit a = lit b -> a = b.
Proof.
  unfold lit. intros H.
  rewrite <- (string_of_list_ascii_of_string a),
          <- (string_of_list_ascii_of_string b).
  now rewrite H.
Qed.

Lemma str_of_N_inj (n m : N) : str_of_N n = str_of_N m -> n = m.
Proof.
  unfold str_of_N. intros H. apply lit_inj in H.
  apply DecimalN.Unsigned.to_uint_inj.
  assert (E : Some (N.to_uint n) = Some (N.to_uint m)).
  { rewrite <- !NilEmpty.usu. now rewrite H. }
  now injection E.
Qed.

Lemma startswith_app_l (s t p : str) :
  startswith s p = true -> startswith (s ++ t) p = true.
Proof.
  revert s. induction p as [| a p IH]; intros s H; [reflexivity |].
  destruct s as [| b s]; simpl in *; [discriminate |].
  apply andb_true_iff in H. destruct H as [-> H]. now apply IH.
Qed.

Lemma startswith_refl (s : str) : startswith s s = true.
Proof.
  induction s as [| c s IH]; simpl; [reflexivity |].
  now rewrite Ascii.eqb_refl.
Qed.

Lemma endswith_app (a b suffix : str) :
  endswith b suffix = true -> endswith (a ++ b) suffix = true.
Proof.
  unfold endswith. intros H. rewrite rev_app_distr.
  now apply startswith_app_l.
Qed.

Lemma endswith_refl (s : str) : endswith s s = true.
Proof. apply startswith_refl. Qed.

Lemma os_path_join_endswith (a b suffix : str) :
  endswith b suffix = true -> endswith (os_path_join a b) suffix = true.
Proof.
  intros H. unfold os_path_join.
  destruct (startswith b (lit "/")); [assumption |].
  destruct (_ || _); [now apply endswith_app |].
  apply endswith_app. now apply endswith_app.
Qed.

Lemma os_path_join_inj (a b1 b2 : str) :
  startswith b1 (lit "/") = false -> startswith b2 (lit "/") = false ->
  os_path_join a b1 = os_path_join a b2 -> b1 = b2.
Proof.
  intros H1 H2. unfold os_path_join. rewrite H1, H2.
  destruct (_ || _); intros H.
  - now apply app_inv_head in H.
  - apply app_inv_head in H. now apply app_inv_head in H.
Qed.

Lemma hashed_name_relative (n : N) :
  startswith (str_of_N n ++ lit ".pdf") (lit "/") = false.
Proof.
  unfold str_of_N. now destruct (N.to_uint n).
Qed.

Lemma url_filename_hashed (h : Z) (url : str) :
  endswith (last_segment url) (lit ".pdf") = false ->
  url_filename h url = str_of_N (Z.to_N (Z.land h 4294967295)) ++ lit ".pdf".
Proof. intros H. unfold url_filename. now rewrite H. Qed.

Lemma url_filename_endswith_pdf (h : Z) (url : str) :
  endswith (url_filename h url) (lit ".pdf") = true.
Proof.
  unfold url_filename.
  destruct (endswith (last_segment url) (lit ".pdf")) eqn:E; simpl.
  - exact E.
  - apply endswith_app. apply endswith_refl.
Qed.

Lemma url_filename_hash_inj (h1 h2 : Z) (url : str) :
  endswith (last_segment url) (lit ".pdf") = false ->
  url_filename h1 url = url_filename h2 url ->
  Z.land h1 4294967295 = Z.land h2 4294967295.
Proof.
  intros E H. rewrite !url_filename_hashed in H by assumption.
  apply app_inv_tail in H. apply str_of_N_inj in H.
  apply Z2N.inj in H; [assumption | |];
    apply Z.land_nonneg; right; lia.
Qed.

(** C3, what the code does: the cache path of a URL always ends in
    ".pdf", but for a URL whose last segment does not end in ".pdf" the
    name is the decimal of [hash(url) & 0xFFFFFFFF], so two runs whose
    interpreters salt [hash] differently (their masked hashes of the
    URL differ) resolve the same URL to different cache paths. *)
Theorem url_cache_name_follows_hash (url cache_dir : str)
    (w1 w1' w2 w2' : World) (p1 p2 : str) :
  endswith (last_segment url) (lit ".pdf") = false ->
  Z.land (process_hash w1 url) 4294967295 <>
  Z.land (process_hash w2 url) 4294967295 ->
  download_url url cache_dir w1 = (Ok p1, w1') ->
  download_url url cache_dir w2 = (Ok p2, w2') ->
  endswith p1 (lit ".pdf") = true /\
  endswith p2 (lit ".pdf") = true /\
  p1 <> p2.
Proof.
  intros E Hh H1 H2.
  apply download_url_success in H1. destruct H1 as [-> _].
  apply download_url_success in H2. destruct H2 as [-> _].
  repeat split; try (apply os_path_join_endswith, url_filename_endswith_pdf).
  intros H. apply Hh. apply (url_filename_hash_inj _ _ url E).
  apply os_path_join_inj in H; [assumption | |];
    rewrite url_filename_hashed by assumption; apply hashed_name_relative.
Qed.

Lemma url_cache_name_follows_hash_witness :
  endswith (lit "/tmp/paper_cache/1.pdf") (lit ".pdf") = true /\
  endswith (lit "/tmp/paper_cache/2.pdf") (lit ".pdf") = true /\
  lit "/tmp/paper_cache/1.pdf" <> lit "/tmp/paper_cache/2.pdf".
Proof.
  apply (url_cache_name_follows_hash
           (lit "http://a.org/paper") (lit "/tmp/paper_cache")
           (world_of [] (fun _ => 1%Z))
           (snd (download_url (lit "http://a.org/paper")
                   (lit "/tmp/paper_cache") (world_of [] (fun _ => 1%Z))))
           (world_of [] (fun _ => 2%Z))
           (snd (download_url (lit "http://a.org/paper")
                   (lit "/tmp/paper_cache") (world_of [] (fun _ => 2%Z))))).
  - reflexivity.
  - discriminate.
  - vm_compute. reflexivity.
  - vm_compute. reflexivity.
Defined.

(** ** More on the resolvers: failures, fetches and what they leave *)

Lemma lower_char_idem (c : ascii) : lower_char (lower_char c) = lower_char c.
Proof.
  destruct c as [[|] [|] [|] [|] [|] [|] [|] [|]]; vm_compute; reflexivity.
Qed.

Lemma lower_idem (s : str) : lower (lower s) = lower s.
Proof.
  unfold lower. rewrite map_map. apply map_ext. apply lower_char_idem.
Qed.

Lemma replace_scheme (t : str) :
  replace (lit "arxiv:" ++ t) (lit "arxiv:") [] = replace t (lit "arxiv:") [].
Proof. reflexivity. Qed.

Lemma clean_arxiv_id_spelling (p a b : str) :
  lower p = lit "arxiv:" -> lower a = lower b ->
  clean_arxiv_id (p ++ b) = clean_arxiv_id a.
Proof.
  intros Hp Hab. unfold clean_arxiv_id.
  now rewrite lower_app, Hp, replace_scheme, Hab.
Qed.

(** X1: on a cache miss, when the arXiv index has no record for the
    cleaned identifier, [download_arxiv] raises "arXiv paper not found"
    with the cleaned identifier; one search is logged, nothing is
    fetched and no file changes. *)
Theorem download_arxiv_not_found (arxiv_id cache_dir : str) (w : World) :
  files w (arxiv_cache_path arxiv_id cache_dir) = None ->
  arxiv_index w (clean_arxiv_id arxiv_id) = Ok [] ->
  exists w',
    download_arxiv arxiv_id cache_dir w =
      (Raise (lit "arXiv paper not found: " ++ clean_arxiv_id arxiv_id), w') /\
    files w' = files w /\
    net_log w' = net_log w ++ [ArxivSearch (clean_arxiv_id arxiv_id)].
Proof.
  intros Hf Hi. eexists.
  unfold download_arxiv, bind, os_path_exists. rewrite Hf.
  unfold arxiv_search, bind, log_net. cbn [arxiv_index]. rewrite Hi.
  unfold raise. repeat split.
Qed.

Lemma download_arxiv_not_found_witness :
  exists w',
    download_arxiv (lit " arXiv:2101.00001 ") (lit "/tmp/paper_cache")
      empty_world =
      (Raise (lit "arXiv paper not found: 2101.00001"), w') /\
    files w' = files empty_world /\
    net_log w' = [ArxivSearch (lit "2101.00001")].
Proof.
  apply (download_arxiv_not_found (lit " arXiv:2101.00001 ")
           (lit "/tmp/paper_cache") empty_world); reflexivity.
Defined.

(** X2: on a cache miss, when the index has records, the PDF of the
    first record is stored at the cache path, which is returned; one
    search and one fetch are logged, and every other file is as it
    was. *)
Theorem download_arxiv_fetches_first_result (arxiv_id cache_dir : str)
    (w : World) (data : bytes) (others : list Paper) :
  files w (arxiv_cache_path arxiv_id cache_dir) = None ->
  arxiv_index w (clean_arxiv_id arxiv_id) = Ok (Ok data :: others) ->
  write_error w (arxiv_cache_path arxiv_id cache_dir) = None ->
  exists w',
    download_arxiv arxiv_id cache_dir w =
      (Ok (arxiv_cache_path arxiv_id cache_dir), w') /\
    files w' (arxiv_cache_path arxiv_id cache_dir) = Some data /\
    (forall q, q <> arxiv_cache_path arxiv_id cache_dir ->
               files w' q = files w q) /\
    net_log w' =
      net_log w ++ [ArxivSearch (clean_arxiv_id arxiv_id);
                    ArxivFetch (clean_arxiv_id arxiv_id)].
Proof.
  intros Hf Hi Hw. eexists.
  unfold download_arxiv, bind, os_path_exists. rewrite Hf.
  unfold arxiv_search, bind, log_net. cbn [arxiv_index]. rewrite Hi.
  unfold download_pdf, bind, log_net, write_file. cbn [write_error].
  fold (arxiv_cache_path arxiv_id cache_dir). rewrite Hw.
  unfold ret. cbn [files net_log]. repeat split.
  - cbn [files]. unfold arxiv_cache_path. now rewrite str_eqb_refl.
  - intros q Hq. cbn [files]. now rewrite (str_eqb_neq _ _ Hq).
  - cbn [net_log]. now rewrite <- app_assoc.
Qed.

Lemma download_arxiv_fetches_first_result_witness :
  exists w',
    download_arxiv (lit "2101.00001") (lit "/tmp/paper_cache") arxiv_world =
      (Ok (lit "/tmp/paper_cache/arxiv_2101.00001.pdf"), w') /\
    files w' (lit "/tmp/paper_cache/arxiv_2101.00001.pdf") = Some pdf_bytes /\
    (forall q, q <> lit "/tmp/paper_cache/arxiv_2101.00001.pdf" ->
               files w' q = files arxiv_world q) /\
    net_log w' =
      [ArxivSearch (lit "2101.00001"); ArxivFetch (lit "2101.00001")].
Proof.
  apply (download_arxiv_fetches_first_result (lit "2101.00001")
           (lit "/tmp/paper_cache") arxiv_world pdf_bytes []); reflexivity.
Defined.

(** X3: the cache key of an arXiv identifier ignores letter case and a
    leading "arxiv:" in any case: once an identifier has been resolved,
    a spelling of it that differs only in those is a cache hit, with the
    same path and the world left as it was. *)
Theorem download_arxiv_spelling_hits_cache (p a b cache_dir : str)
    (w0 w1 : World) (path : str) :
  lower p = lit "arxiv:" ->
  lower a = lower b ->
  download_arxiv a cache_dir w0 = (Ok path, w1) ->
  download_arxiv (p ++ b) cache_dir w1 = (Ok path, w1) /\
  download_arxiv b cache_dir w1 = (Ok path, w1).
Proof.
  intros Hp Hab H. apply download_arxiv_success in H.
  destruct H as [-> [data Hd]].
  assert (E1 : arxiv_cache_path (p ++ b) cache_dir =
               arxiv_cache_path a cache_dir).
  { unfold arxiv_cache_path, arxiv_filename.
    now rewrite (clean_arxiv_id_spelling p a b Hp Hab). }
  assert (E2 : arxiv_cache_path b cache_dir = arxiv_cache_path a cache_dir).
  { unfold arxiv_cache_path, arxiv_filename, clean_arxiv_id.
    now rewrite Hab. }
  split.
  - rewrite <- E1 in Hd |- *. exact (download_arxiv_hit _ _ _ _ Hd).
  - rewrite <- E2 in Hd |- *. exact (download_arxiv_hit _ _ _ _ Hd).
Qed.

Lemma download_arxiv_spelling_hits_cache_witness :
  download_arxiv (lit "arXiv:" ++ lit "2101.00001V2") (lit "/tmp/paper_cache")
    (snd (download_arxiv (lit "2101.00001v2") (lit "/tmp/paper_cache")
            arxiv_world)) =
  (Ok (lit "/tmp/paper_cache/arxiv_2101.00001v2.pdf"),
   snd (download_arxiv (lit "2101.00001v2") (lit "/tmp/paper_cache")
          arxiv_world)) /\
  download_arxiv (lit "2101.00001V2") (lit "/tmp/paper_cache")
    (snd (download_arxiv (lit "2101.00001v2") (lit "/tmp/paper_cache")
            arxiv_world)) =
  (Ok (lit "/tmp/paper_cache/arxiv_2101.00001v2.pdf"),
   snd (download_arxiv (lit "2101.00001v2") (lit "/tmp/paper_cache")
          arxiv_world)).
Proof.
  apply (download_arxiv_spelling_hits_cache
           (lit "arXiv:") (lit "2101.00001v2") (lit "2101.00001V2")
           (lit "/tmp/paper_cache") arxiv_world).
  - reflexivity.
  - reflexivity.
  - vm_compute. reflexivity.
Defined.

(** X4: on a cache miss, when the request raises or the response has a
    4xx or 5xx status, [download_url] raises (the error of the request,
    or the one of [raise_for_status]); one GET is logged and no file is
    written. *)
Theorem download_url_http_failure (url cache_dir : str) (w : World) :
  files w (os_path_join cache_dir (url_filename (process_hash w url) url))
    = None ->
  (forall e,
      http w url = Raise e ->
      exists w',
        download_url url cache_dir w = (Raise e, w') /\
        files w' = files w /\ net_log w' = net_log w ++ [HttpGet url])
  /\ (forall r,
        http w url = Ok r ->
        (400 <= status_code r < 600)%Z ->
        exists w',
          download_url url cache_dir w = (Raise (http_error r), w') /\
          files w' = files w /\ net_log w' = net_log w ++ [HttpGet url]).
Proof.
  intros Hf. split.
  - intros e He. eexists.
    unfold download_url, bind, hash, os_path_exists. rewrite Hf.
    unfold requests_get, bind, log_net. cbn [http]. rewrite He.
    repeat split.
  - intros r Hr Hs. eexists.
    unfold download_url, bind, hash, os_path_exists. rewrite Hf.
    unfold requests_get, bind, log_net. cbn [http]. rewrite Hr.
    unfold raise_for_status.
    replace ((400 <=? status_code r) && (status_code r <? 600))%Z
      with true by (symmetry; apply andb_true_iff; split;
                    [apply Z.leb_le | apply Z.ltb_lt]; lia).
    unfold raise. repeat split.
Qed.

Lemma download_url_http_failure_witness :
  exists w',
    download_url (lit "http://a.org/paper.pdf") (lit "/tmp/paper_cache")
      arxiv_world = (Raise (lit "connection refused"), w') /\
    files w' = files arxiv_world /\
    net_log w' = [HttpGet (lit "http://a.org/paper.pdf")].
Proof.
  apply (proj1 (download_url_http_failure (lit "http://a.org/paper.pdf")
                  (lit "/tmp/paper_cache") arxiv_world eq_refl)).
  reflexivity.
Defined.

(** X5: on a cache miss, a response whose status is outside 400..599
    (a 2xx, and a 1xx or 3xx as well) is stored: the body is written
    unchanged at the cache path, which is returned; one GET is logged
    and every other file is as it was. *)
Theorem download_url_stores_body (url cache_dir : str) (w : World)
    (r : Response) :
  files w (os_path_join cache_dir (url_filename (process_hash w url) url))
    = None ->
  http w url = Ok r ->
  ~ (400 <= status_code r < 600)%Z ->
  write_error w
    (os_path_join cache_dir (url_filename (process_hash w url) url)) = None ->
  exists w',
    download_url url cache_dir w =
      (Ok (os_path_join cache_dir (url_filename (process_hash w url) url)),
       w') /\
    files w' (os_path_join cache_dir (url_filename (process_hash w url) url))
      = Some (content r) /\
    (forall q,
        q <> os_path_join cache_dir (url_filename (process_hash w url) url) ->
        files w' q = files w q) /\
    net_log w' = net_log w ++ [HttpGet url].
Proof.
  intros Hf Hr Hs Hw. eexists.
  unfold download_url, bind, hash, os_path_exists. rewrite Hf.
  unfold requests_get, bind, log_net. cbn [http]. rewrite Hr.
  unfold raise_for_status.
  replace ((400 <=? status_code r) && (status_code r <? 600))%Z
    with false.
  2:{ symmetry. apply not_true_is_false. intros H. apply Hs.
      apply andb_true_iff in H. destruct H as [H1 H2].
      apply Z.leb_le in H1. apply Z.ltb_lt in H2. lia. }
  unfold ret, write_file. cbn [write_error]. rewrite Hw.
  repeat split.
  - cbn [files]. now rewrite str_eqb_refl.
  - intros q Hq. cbn [files]. now rewrite (str_eqb_neq _ _ Hq).
Qed.

Lemma download_url_stores_body_witness :
  exists w',
    download_url (lit "http://a.org/paper.pdf") (lit "/tmp/paper_cache")
      empty_world = (Ok (lit "/tmp/paper_cache/paper.pdf"), w') /\
    files w' (lit "/tmp/paper_cache/paper.pdf") = Some pdf_bytes /\
    (forall q, q <> lit "/tmp/paper_cache/paper.pdf" ->
               files w' q = files empty_world q) /\
    net_log w' = [HttpGet (lit "http://a.org/paper.pdf")].
Proof.
  apply (download_url_stores_body (lit "http://a.org/paper.pdf")
           (lit "/tmp/paper_cache") empty_world
           (mkResponse 200 pdf_bytes [])).
  - reflexivity.
  - reflexivity.
  - simpl. lia.
  - reflexivity.
Defined.

(** ** More on the extraction: text, titles and content of sections *)

Lemma page_step_full_text (n : nat) (text : str) (st : LoopState) :
  full_text (page_step n text st) = full_text st ++ [text].
Proof.
  unfold page_step.
  now destruct (fold_line_step_title (split nl text)
    (mkLoop (full_text st ++ [text]) (sections st) (current_section st)
            (title_step n text (title st)))) as [_ ->].
Qed.

Lemma pages_loop_full_text (doc : list Page) :
  forall n st st',
    pages_loop n doc st = Ok st' ->
    exists texts, doc = map Ok texts /\ full_text st' = full_text st ++ texts.
Proof.
  induction doc as [| page rest IH]; intros n st st' H; simpl in H.
  - injection H as <-. exists []. now rewrite app_nil_r.
  - destruct page as [text | e]; simpl in H; [| discriminate].
    apply IH in H. destruct H as (texts & -> & Hf).
    exists (text :: texts). split; [reflexivity |].
    now rewrite Hf, page_step_full_text, <- app_assoc.
Qed.

(** X6: an extraction succeeds only when every page could be read, and
    then [text] is the page texts, as read, joined by one blank line,
    [pages] is their number and [pdf_path] is the path given. *)
Theorem extract_doc_text_and_pages (path : str) (doc : list Page)
    (r : Extracted) :
  extract_doc path doc = Ok r ->
  exists texts,
    doc = map Ok texts /\
    r_text r = join [nl; nl] texts /\
    r_pages r = List.length texts /\
    r_pdf_path r = path.
Proof.
  unfold extract_doc.
  destruct (pages_loop 0 doc initial_state) as [st |] eqn:Hloop;
    [| discriminate].
  intros H. injection H as <-.
  apply pages_loop_full_text in Hloop. destruct Hloop as (texts & -> & Hf).
  exists texts. simpl. rewrite Hf, length_map. now repeat split.
Qed.

Lemma extract_doc_text_and_pages_witness :
  exists texts,
    [Ok (lit "Abstract"); Ok (lit " Hello ")] = map Ok texts /\
    r_text (mkExtracted None (lit "p.pdf") 2
              (lit "Abstract" ++ [nl; nl] ++ lit " Hello ")
              [mkSection (lit "Abstract") (lit "Hello")]) =
      join [nl; nl] texts /\
    r_pages (mkExtracted None (lit "p.pdf") 2
               (lit "Abstract" ++ [nl; nl] ++ lit " Hello ")
               [mkSection (lit "Abstract") (lit "Hello")]) =
      List.length texts /\
    r_pdf_path (mkExtracted None (lit "p.pdf") 2
                  (lit "Abstract" ++ [nl; nl] ++ lit " Hello ")
                  [mkSection (lit "Abstract") (lit "Hello")]) = lit "p.pdf".
Proof.
  apply (extract_doc_text_and_pages (lit "p.pdf")
           [Ok (lit "Abstract"); Ok (lit " Hello ")]).
  vm_compute. reflexivity.
Defined.

Lemma titles_ok_app (secs : list SectionDict) (s : SectionDict) :
  titles_ok secs ->
  section_pattern_match (sec_title s) = true \/
  (secs = [] /\ sec_title s = lit "Beginning") ->
  titles_ok (secs ++ [s]).
Proof.
  intros Hs Hnew i x Hi.
  destruct (Nat.lt_ge_cases i (List.length secs)) as [Hlt | Hge].
  - rewrite nth_error_app1 in Hi by assumption. now apply Hs.
  - rewrite nth_error_app2 in Hi by assumption.
    destruct (i - List.length secs) as [| k] eqn:Ek; simpl in Hi.
    + injection Hi as <-. destruct Hnew as [H | [-> H]]; [now left |].
      right. simpl in Ek, Hge. split; [lia | assumption].
    + destruct k; discriminate.
Qed.

Lemma line_step_titles_inv (st : LoopState) (line : str) :
  titles_inv st -> titles_inv (line_step st line).
Proof.
  intros [Hs Hc]. unfold line_step.
  destruct (section_pattern_match (strip line)) eqn:Hm.
  - split; simpl; [| now left].
    unfold append_if_content. destruct (truthy _); [| assumption].
    apply titles_ok_app; [assumption |].
    unfold close_section. simpl.
    destruct Hc as [H | [H1 H2]]; [now left | now right].
  - destruct (truthy (strip line)); [| now split].
    split; simpl; assumption.
Qed.

Lemma fold_line_step_titles_inv (lines : list str) :
  forall st, titles_inv st -> titles_inv (fold_left line_step lines st).
Proof.
  induction lines as [| line rest IH]; intros st H; simpl; [assumption |].
  apply IH. now apply line_step_titles_inv.
Qed.

Lemma pages_loop_titles_inv (doc : list Page) :
  forall n st st',
    titles_inv st -> pages_loop n doc st = Ok st' -> titles_inv st'.
Proof.
  induction doc as [| page rest IH]; intros n st st' Hinv H; simpl in H.
  - now injection H as <-.
  - destruct page as [text | e]; simpl in H; [| discriminate].
    apply IH in H; [assumption |].
    unfold page_step. apply fold_line_step_titles_inv. exact Hinv.
Qed.

(** X7: in the result of an extraction every section is titled by a
    line the heading pattern matches, except that the first section may
    be the initial "Beginning"; no other section has a title that is
    not a heading. *)
Theorem extract_doc_section_titles (path : str) (doc : list Page)
    (r : Extracted) (i : nat) (s : SectionDict) :
  extract_doc path doc = Ok r ->
  nth_error (r_sections r) i = Some s ->
  section_pattern_match (sec_title s) = true \/
  (i = 0 /\ sec_title s = lit "Beginning").
Proof.
  unfold extract_doc.
  destruct (pages_loop 0 doc initial_state) as [st |] eqn:Hloop;
    [| discriminate].
  intros H. injection H as <-. simpl.
  apply pages_loop_titles_inv in Hloop.
  - destruct Hloop as [Hs Hc]. revert i s.
    unfold append_if_content. destruct (truthy _); [| exact Hs].
    apply titles_ok_app; [assumption |]. unfold close_section. simpl.
    destruct Hc as [H | [H1 H2]]; [now left | now right].
  - split; simpl; [| now right].
    intros j x Hj. destruct j; discriminate.
Qed.

Lemma extract_doc_section_titles_witness :
  section_pattern_match (lit "Abstract") = true \/
  (1 = 0 /\ lit "Abstract" = lit "Beginning").
Proof.
  apply (extract_doc_section_titles (lit "paper.pdf") [Ok my_paper_text]
           (mkExtracted (Some (lit "This is the abstract."))
              (lit "paper.pdf") 1 my_paper_text
              [ mkSection (lit "Beginning") (lit "My Paper");
                mkSection (lit "Abstract") (lit "This is the abstract.");
                mkSection (lit "Conclusion") (lit "The end.") ])
           1 (mkSection (lit "Abstract") (lit "This is the abstract."))).
  - vm_compute. reflexivity.
  - reflexivity.
Defined.

Lemma join_app (sep : str) (a b : list str) :
  a <> [] -> b <> [] ->
  join sep (a ++ b) = join sep a ++ sep ++ join sep b.
Proof.
  intros Ha Hb. induction a as [| x a IH]; [congruence |].
  destruct a as [| y a].
  - simpl. destruct b; [congruence | reflexivity].
  - change (join sep ((x :: y :: a) ++ b))
      with (x ++ sep ++ join sep ((y :: a) ++ b)).
    rewrite IH by discriminate.
    change (join sep (x :: y :: a)) with (x ++ sep ++ join sep (y :: a)).
    now rewrite <- !app_assoc.
Qed.

Lemma concat_filled (gs : list (list str)) :
  gs <> [] -> Forall (fun g => g <> []) gs -> concat gs <> [].
Proof.
  destruct gs as [| g gs]; [congruence |]. intros _ H.
  inversion H as [| a b Hg _]; subst. simpl.
  destruct g; [congruence | discriminate].
Qed.

Lemma join_concat (sep : str) (gs : list (list str)) :
  Forall (fun g => g <> []) gs ->
  join sep (map (join sep) gs) = join sep (concat gs).
Proof.
  induction gs as [| g gs IH]; intros H; [reflexivity |].
  inversion H as [| a b Hg Hgs]; subst.
  destruct gs as [| g' gs].
  - simpl. now rewrite app_nil_r.
  - change (join sep (map (join sep) (g :: g' :: gs)))
      with (join sep g ++ sep ++ join sep (map (join sep) (g' :: gs))).
    rewrite (IH Hgs).
    change (concat (g :: g' :: gs)) with (g ++ concat (g' :: gs)).
    rewrite join_app; [reflexivity | assumption |].
    apply concat_filled; [discriminate | assumption].
Qed.

Lemma body_line_heading (line : str) :
  section_pattern_match line = true -> body_line line = false.
Proof. intros H. unfold body_line. now rewrite H. Qed.

Lemma seen_snoc (seen : list str) (line : str) :
  filter body_line (map strip (seen ++ [line])) =
  filter body_line (map strip seen) ++
  (if body_line (strip line) then [strip line] else []).
Proof. now rewrite map_app, filter_app. Qed.

Lemma line_step_lines_inv (st : LoopState) (seen : list str) (line : str) :
  lines_inv st seen -> lines_inv (line_step st line) (seen ++ [line]).
Proof.
  intros (groups & [Hmap Hne] & Hcat). unfold lines_inv.
  rewrite seen_snoc. unfold line_step.
  destruct (section_pattern_match (strip line)) eqn:Hm.
  - rewrite (body_line_heading _ Hm), app_nil_r. simpl.
    unfold append_if_content.
    destruct (cur_content (current_section st)) as [| c cs] eqn:Ec; simpl.
    + exists groups. repeat split; assumption.
    + exists (groups ++ [c :: cs]). repeat split.
      * rewrite !map_app, Hmap. simpl. unfold close_section.
        simpl. now rewrite Ec.
      * apply Forall_app. split; [assumption |].
        constructor; [discriminate | constructor].
      * rewrite concat_app. simpl. now rewrite !app_nil_r.
  - unfold body_line. rewrite Hm. simpl.
    destruct (truthy (strip line)).
    + exists groups. simpl. repeat split; try assumption.
      now rewrite app_assoc, Hcat.
    + exists groups. rewrite app_nil_r. repeat split; assumption.
Qed.

Lemma fold_line_step_lines_inv (lines : list str) :
  forall st seen,
    lines_inv st seen ->
    lines_inv (fold_left line_step lines st) (seen ++ lines).
Proof.
  induction lines as [| line rest IH]; intros st seen H; simpl.
  - now rewrite app_nil_r.
  - replace (seen ++ line :: rest) with ((seen ++ [line]) ++ rest)
      by (now rewrite <- app_assoc).
    apply IH. now apply line_step_lines_inv.
Qed.

Lemma pages_loop_lines_inv (texts : list str) :
  forall n st st' seen,
    lines_inv st seen ->
    pages_loop n (map Ok texts) st = Ok st' ->
    lines_inv st' (seen ++ concat (map (split nl) texts)).
Proof.
  induction texts as [| text rest IH]; intros n st st' seen Hinv H;
    simpl in H.
  - injection H as <-. simpl. now rewrite app_nil_r.
  - apply IH with (seen := seen ++ split nl text) in H.
    + simpl. now rewrite app_assoc.
    + unfold page_step. apply fold_line_step_lines_inv. exact Hinv.
Qed.

(** The content lines of the sections of a result, section by section:
    they are the body lines of the document, in order. *)
Lemma extract_doc_groups (path : str) (texts : list str) (r : Extracted) :
  extract_doc path (map Ok texts) = Ok r ->
  exists groups,
    grouped (r_sections r) groups /\
    concat groups = filter body_line (document_lines texts).
Proof.
  unfold extract_doc.
  destruct (pages_loop 0 (map Ok texts) initial_state) as [st |] eqn:Hloop;
    [| discriminate].
  intros H. injection H as <-. simpl.
  apply (pages_loop_lines_inv texts 0 initial_state st []) in Hloop.
  2:{ exists []. repeat split; constructor. }
  destruct Hloop as (groups & [Hmap Hne] & Hcat). simpl in Hcat.
  unfold document_lines, append_if_content.
  destruct (cur_content (current_section st)) as [| c cs] eqn:Ec; simpl.
  - exists groups. rewrite app_nil_r in Hcat. repeat split; assumption.
  - exists (groups ++ [c :: cs]). repeat split.
    + rewrite !map_app, Hmap. simpl. unfold close_section.
      simpl. now rewrite Ec.
    + apply Forall_app. split; [assumption |].
      constructor; [discriminate | constructor].
    + rewrite concat_app. simpl. now rewrite app_nil_r.
Qed.

(** X8: the content of every section of a result is made of one or
    more lines joined by newlines, each of them a trimmed line of the
    document that is not empty and that the heading pattern does not
    match: a heading line is never part of a content. *)
Theorem section_content_is_body_lines (path : str) (texts : list str)
    (r : Extracted) (s : SectionDict) :
  extract_doc path (map Ok texts) = Ok r ->
  In s (r_sections r) ->
  exists g,
    g <> [] /\
    sec_content s = join [nl] g /\
    Forall (fun line =>
              In line (document_lines texts) /\
              line <> [] /\ section_pattern_match line = false) g.
Proof.
  intros H Hin. apply extract_doc_groups in H.
  destruct H as (groups & [Hmap Hne] & Hcat).
  apply (in_map sec_content) in Hin. rewrite Hmap in Hin.
  apply in_map_iff in Hin. destruct Hin as (g & Hg & Hing).
  exists g. rewrite Forall_forall in Hne. repeat split.
  - now apply Hne.
  - now symmetry.
  - apply Forall_forall. intros line Hline.
    assert (Hf : In line (filter body_line (document_lines texts))).
    { rewrite <- Hcat. apply in_concat. now exists g. }
    apply filter_In in Hf. destruct Hf as [Hdoc Hb].
    unfold body_line in Hb. apply andb_true_iff in Hb.
    destruct Hb as [Hm Ht]. apply negb_true_iff in Hm.
    apply truthy_filled in Ht. now repeat split.
Qed.

Lemma section_content_is_body_lines_witness :
  exists g,
    g <> [] /\
    sec_content (mkSection (lit "Conclusion") (lit "The end.")) =
      join [nl] g /\
    Forall (fun line =>
              In line (document_lines [my_paper_text]) /\
              line <> [] /\ section_pattern_match line = false) g.
Proof.
  apply (section_content_is_body_lines (lit "paper.pdf") [my_paper_text]
           (mkExtracted (Some (lit "This is the abstract."))
              (lit "paper.pdf") 1 my_paper_text
              [ mkSection (lit "Beginning") (lit "My Paper");
                mkSection (lit "Abstract") (lit "This is the abstract.");
                mkSection (lit "Conclusion") (lit "The end.") ])).
  - vm_compute. reflexivity.
  - simpl. auto.
Defined.

(** X9: no body line is lost or moved: the contents of the sections of
    a result, joined by newlines in section order, are the trimmed
    lines of all pages that are neither empty nor headings, in reading
    order, joined by newlines.  Only heading lines and blank lines are
    left out. *)
Theorem section_contents_are_the_body_lines (path : str)
    (texts : list str) (r : Extracted) :
  extract_doc path (map Ok texts) = Ok r ->
  join [nl] (map sec_content (r_sections r)) =
  join [nl] (filter body_line (document_lines texts)).
Proof.
  intros H. apply extract_doc_groups in H.
  destruct H as (groups & [Hmap Hne] & Hcat).
  now rewrite Hmap, join_concat, Hcat.
Qed.

Lemma section_contents_are_the_body_lines_witness :
  join [nl]
    (map sec_content
       [ mkSection (lit "Beginning") (lit "My Paper");
         mkSection (lit "Abstract") (lit "This is the abstract.");
         mkSection (lit "Conclusion") (lit "The end.") ]) =
  join [nl] (filter body_line (document_lines [my_paper_text])).
Proof.
  apply (section_contents_are_the_body_lines (lit "paper.pdf")
           [my_paper_text]
           (mkExtracted (Some (lit "This is the abstract."))
              (lit "paper.pdf") 1 my_paper_text
              [ mkSection (lit "Beginning") (lit "My Paper");
                mkSection (lit "Abstract") (lit "This is the abstract.");
                mkSection (lit "Conclusion") (lit "The end.") ])).
  vm_compute. reflexivity.
Defined.

(** X10: a title, when one is found, is a trimmed line among the first
    five of the first page's trimmed text, and has more than 10 and
    fewer than 200 characters. *)
Theorem title_is_bounded_first_page_line (path text : str)
    (rest : list Page) (r : Extracted) (t : str) :
  extract_doc path (Ok text :: rest) = Ok r ->
  r_title r = Some t ->
  In t (map strip (firstn 5 (split nl (strip text)))) /\
  10 < List.length t < 200.
Proof.
  intros H Ht. rewrite (extract_doc_title _ _ _ _ H) in Ht.
  unfold first_page_title in Ht. apply find_some in Ht.
  destruct Ht as [Hin Hok]. split; [assumption |].
  unfold title_ok in Hok. apply andb_true_iff in Hok.
  destruct Hok as [H1 H2].
  apply Nat.ltb_lt in H1. apply Nat.ltb_lt in H2. now split.
Qed.

Lemma title_is_bounded_first_page_line_witness :
  In (lit "This is the abstract.")
     (map strip (firstn 5 (split nl (strip my_paper_text)))) /\
  10 < List.length (lit "This is the abstract.") < 200.
Proof.
  apply (title_is_bounded_first_page_line (lit "paper.pdf") my_paper_text []
           (mkExtracted (Some (lit "This is the abstract."))
              (lit "paper.pdf") 1 my_paper_text
              [ mkSection (lit "Beginning") (lit "My Paper");
                mkSection (lit "Abstract") (lit "This is the abstract.");
                mkSection (lit "Conclusion") (lit "The end.") ])).
  - vm_compute. reflexivity.
  - reflexivity.
Defined.

(** ** More on [main]: what a run does to the world *)

Lemma extract_text_world (path : str) (w : World) :
  snd (extract_text path w) = w.
Proof.
  unfold extract_text, bind, fitz_open.
  destruct (files w path) as [data |]; [| reflexivity].
  now destruct (fitz_parse w data).
Qed.

Lemma bind_extract_world (m : M str) (w : World) :
  snd ((pdf_path <- m ;; extract_text pdf_path) w) = snd (m w).
Proof.
  unfold bind. destruct (m w) as [[p | e] w1]; [| reflexivity].
  apply extract_text_world.
Qed.

Lemma report_world (source source_type : str) (x : result Extracted * World) :
  snd (report source source_type x) = snd x.
Proof. now destruct x as [[r | e] w]. Qed.

Lemma prepare_cache_dir_effect (w : World) :
  net_log (snd (prepare_cache_dir w)) = net_log w /\
  (forall p d,
      files w p = Some d -> files (snd (prepare_cache_dir w)) p = Some d).
Proof.
  destruct (prepare_cache_dir w) as [[c | e] w1] eqn:H; simpl.
  - apply prepare_cache_dir_ok in H. tauto.
  - apply prepare_cache_dir_raise in H. subst. auto.
Qed.

(** The world a run leaves: the one after the set-up of the cache
    directory, or the one a resolver leaves from there. *)
Lemma main_world (argv : list str) (w : World) :
  snd (main argv w) = w \/
  snd (main argv w) = snd (prepare_cache_dir w) \/
  (exists c,
      snd (main argv w) =
      snd (download_arxiv (nth 2 argv []) c (snd (prepare_cache_dir w)))) \/
  (exists c,
      snd (main argv w) =
      snd (download_url (nth 2 argv []) c (snd (prepare_cache_dir w)))).
Proof.
  unfold main. destruct (List.length argv <? 3); [now left |].
  destruct (prepare_cache_dir w) as [[c | e] w1]; [| now right; left].
  rewrite report_world, bind_extract_world. unfold resolve.
  change (snd (Ok c, w1)) with w1.
  destruct (str_eqb (lower (nth 1 argv [])) (lit "arxiv"));
    [right; right; left; now exists c |].
  destruct (str_eqb (lower (nth 1 argv [])) (lit "local")).
  - right. left. unfold bind, os_path_exists.
    now destruct (files w1 (nth 2 argv [])).
  - destruct (str_eqb (lower (nth 1 argv [])) (lit "url"));
      [right; right; right; now exists c | now right; left].
Qed.

Lemma download_arxiv_effect (arxiv_id cache_dir : str) (w : World) :
  (exists ops,
      net_log (snd (download_arxiv arxiv_id cache_dir w)) = net_log w ++ ops /\
      (ops = [] \/
       ops = [ArxivSearch (clean_arxiv_id arxiv_id)] \/
       ops = [ArxivSearch (clean_arxiv_id arxiv_id);
              ArxivFetch (clean_arxiv_id arxiv_id)])) /\
  (forall p d,
      files w p = Some d ->
      files (snd (download_arxiv arxiv_id cache_dir w)) p = Some d).
Proof.
  unfold download_arxiv, bind, os_path_exists.
  destruct (files w (arxiv_cache_path arxiv_id cache_dir)) as [d0 |] eqn:Hf.
  - split; [| auto]. exists []. rewrite app_nil_r. auto.
  - unfold arxiv_search, bind, log_net. cbn [arxiv_index].
    destruct (arxiv_index w (clean_arxiv_id arxiv_id)) as [results | e].
    2:{ split; [| auto]. eexists. split; [reflexivity | auto]. }
    destruct results as [| paper others].
    { split; [| auto]. eexists. split; [reflexivity | auto]. }
    unfold download_pdf, bind, log_net.
    destruct paper as [data | e].
    2:{ split; [| auto]. eexists. simpl.
        split; [now rewrite <- app_assoc | auto]. }
    unfold write_file. cbn [write_error].
    destruct (write_error w _).
    { split; [| auto]. eexists. simpl.
      split; [now rewrite <- app_assoc | auto]. }
    split.
    + eexists. simpl. split; [now rewrite <- app_assoc | auto].
    + intros p d Hp. simpl.
      destruct (str_eqb p _) eqn:E; [| assumption].
      apply str_eqb_eq in E. unfold arxiv_cache_path in Hf. congruence.
Qed.

Lemma download_url_effect (url cache_dir : str) (w : World) :
  (exists ops,
      net_log (snd (download_url url cache_dir w)) = net_log w ++ ops /\
      (ops = [] \/ ops = [HttpGet url])) /\
  (forall p d,
      files w p = Some d ->
      files (snd (download_url url cache_dir w)) p = Some d).
Proof.
  unfold download_url, bind, hash, os_path_exists.
  destruct (files w (os_path_join cache_dir
                       (url_filename (process_hash w url) url)))
    as [d0 |] eqn:Hf.
  - split; [| auto]. exists []. rewrite app_nil_r. auto.
  - unfold requests_get, bind, log_net. cbn [http].
    destruct (http w url) as [resp | e].
    2:{ split; [| auto]. eexists. split; [reflexivity | auto]. }
    unfold raise_for_status.
    destruct ((400 <=? status_code resp) && (status_code resp <? 600))%Z.
    { split; [| auto]. eexists. split; [reflexivity | auto]. }
    unfold ret, write_file. cbn [write_error].
    destruct (write_error w _).
    { split; [| auto]. eexists. split; [reflexivity | auto]. }
    split.
    + eexists. split; [reflexivity | auto].
    + intros p d Hp. simpl.
      destruct (str_eqb p _) eqn:E; [| assumption].
      apply str_eqb_eq in E. congruence.
Qed.

Lemma extract_doc_path (path : str) (doc : list Page) (r : Extracted) :
  extract_doc path doc = Ok r -> r_pdf_path r = path.
Proof.
  unfold extract_doc. destruct (pages_loop 0 doc initial_state);
    [| discriminate].
  intros H. now injection H as <-.
Qed.

Lemma resolve_local (value cache_dir : str) (w : World) :
  resolve (lit "local") value cache_dir w =
  match files w value with
  | Some _ => (Ok value, w)
  | None => (Raise (lit "File not found: " ++ value), w)
  end.
Proof.
  unfold resolve.
  change (str_eqb (lit "local") (lit "arxiv")) with false.
  change (str_eqb (lit "local") (lit "local")) with true.
  cbv beta iota. unfold bind, os_path_exists. cbv beta.
  destruct (files w value); reflexivity.
Qed.

(** X11: for the kind "local" (in any letter case), once the cache
    directory has been set up (lines 130-131), the path is used as it
    is: when nothing exists at the path the run ends with "File not
    found" and status 1; when a regular file is there and can be
    extracted, the result is printed with [pdf_path] and [source] equal
    to the path given and [source_type] "local", with status 0.  The
    run leaves the world as the set-up left it: nothing is fetched and
    no path other than the cache directory is touched, so nothing is
    copied into the cache. *)
Theorem main_local_file (prog kind value : str) (extra : list str)
    (w w1 : World) (cache_dir : str) :
  lower kind = lit "local" ->
  prepare_cache_dir w = (Ok cache_dir, w1) ->
  (files w1 value = None ->
   main (prog :: kind :: value :: extra) w =
   (mkOutcome [error_envelope (lit "File not found: " ++ value)] 1, w1))
  /\ (forall data doc r,
        files w1 value = Some data ->
        dirs w1 value = false ->
        fitz_parse w1 data = Ok doc ->
        extract_doc value doc = Ok r ->
        main (prog :: kind :: value :: extra) w =
        (mkOutcome [result_json r value (lit "local")] 0, w1) /\
        r_pdf_path r = value)
  /\ net_log w1 = net_log w
  /\ (forall p, p <> cache_dir -> files w1 p = files w p).
Proof.
  intros Hk Hc. repeat split.
  - intros Hf. rewrite (main_ready _ _ _ _ _ _ _ Hc), Hk. unfold bind.
    now rewrite resolve_local, Hf.
  - rewrite (main_ready _ _ _ _ _ _ _ Hc), Hk. unfold bind.
    rewrite resolve_local, H.
    rewrite (extract_text_of_doc w1 value data doc H H1), H2.
    reflexivity.
  - exact (extract_doc_path _ _ _ H2).
  - now apply prepare_cache_dir_ok in Hc.
  - intros p Hp. apply prepare_cache_dir_ok in Hc.
    destruct Hc as (_ & _ & _ & Hf & _). now apply Hf.
Qed.

Lemma main_local_file_witness :
  (files (snd (prepare_cache_dir my_paper_world)) (lit "paper.pdf") = None ->
   main [lit "download_paper.py"; lit "LOCAL"; lit "paper.pdf"]
        my_paper_world =
   (mkOutcome [error_envelope (lit "File not found: " ++ lit "paper.pdf")] 1,
    snd (prepare_cache_dir my_paper_world)))
  /\ (forall data doc r,
        files (snd (prepare_cache_dir my_paper_world)) (lit "paper.pdf") =
          Some data ->
        dirs (snd (prepare_cache_dir my_paper_world)) (lit "paper.pdf") =
          false ->
        fitz_parse (snd (prepare_cache_dir my_paper_world)) data = Ok doc ->
        extract_doc (lit "paper.pdf") doc = Ok r ->
        main [lit "download_paper.py"; lit "LOCAL"; lit "paper.pdf"]
             my_paper_world =
        (mkOutcome [result_json r (lit "paper.pdf") (lit "local")] 0,
         snd (prepare_cache_dir my_paper_world)) /\
        r_pdf_path r = lit "paper.pdf")
  /\ net_log (snd (prepare_cache_dir my_paper_world)) = net_log my_paper_world
  /\ (forall p, p <> lit "/tmp/paper_cache" ->
                files (snd (prepare_cache_dir my_paper_world)) p =
                files my_paper_world p).
Proof.
  apply (main_local_file (lit "download_paper.py") (lit "LOCAL")
           (lit "paper.pdf") [] my_paper_world
           (snd (prepare_cache_dir my_paper_world)) (lit "/tmp/paper_cache")).
  - reflexivity.
  - vm_compute. reflexivity.
Defined.

(** X12: once the cache directory has been set up (lines 130-131), a
    kind that is, in lower case, none of "arxiv", "local" and "url"
    ends the run with "Unknown source type:" followed by the kind in
    lower case, with status 1; the run leaves the world as the set-up
    left it: nothing is fetched and no path other than the cache
    directory is touched. *)
Theorem main_unknown_kind (prog kind value : str) (extra : list str)
    (w w1 : World) (cache_dir : str) :
  prepare_cache_dir w = (Ok cache_dir, w1) ->
  lower kind <> lit "arxiv" ->
  lower kind <> lit "local" ->
  lower kind <> lit "url" ->
  main (prog :: kind :: value :: extra) w =
  (mkOutcome [error_envelope (lit "Unknown source type: " ++ lower kind)] 1,
   w1)
  /\ net_log w1 = net_log w
  /\ (forall p, p <> cache_dir -> files w1 p = files w p).
Proof.
  intros Hc H1 H2 H3. repeat split.
  - rewrite (main_ready _ _ _ _ _ _ _ Hc). unfold resolve, bind.
    now rewrite (str_eqb_neq _ _ H1), (str_eqb_neq _ _ H2),
      (str_eqb_neq _ _ H3).
  - now apply prepare_cache_dir_ok in Hc.
  - intros p Hp. apply prepare_cache_dir_ok in Hc.
    destruct Hc as (_ & _ & _ & Hf & _). now apply Hf.
Qed.

Lemma main_unknown_kind_witness :
  main [lit "download_paper.py"; lit "DOI"; lit "10.1000/182"] empty_world =
  (mkOutcome [error_envelope (lit "Unknown source type: doi")] 1,
   snd (prepare_cache_dir empty_world))
  /\ net_log (snd (prepare_cache_dir empty_world)) = net_log empty_world
  /\ (forall p, p <> lit "/tmp/paper_cache" ->
                files (snd (prepare_cache_dir empty_world)) p =
                files empty_world p).
Proof.
  apply (main_unknown_kind (lit "download_paper.py") (lit "DOI")
           (lit "10.1000/182") [] empty_world
           (snd (prepare_cache_dir empty_world)) (lit "/tmp/paper_cache")).
  - vm_compute. reflexivity.
  - discriminate.
  - discriminate.
  - discriminate.
Defined.

(** X13: a run performs at most two network operations and never
    repeats one: none, or one GET of the URL given, or one search of
    the cleaned identifier, or that search followed by one fetch.  The
    log it found is kept in front. *)
Theorem main_network_operations (argv : list str) (w : World) :
  exists ops,
    net_log (snd (main argv w)) = net_log w ++ ops /\
    (ops = [] \/
     ops = [HttpGet (nth 2 argv [])] \/
     ops = [ArxivSearch (clean_arxiv_id (nth 2 argv []))] \/
     ops = [ArxivSearch (clean_arxiv_id (nth 2 argv []));
            ArxivFetch (clean_arxiv_id (nth 2 argv []))]).
Proof.
  destruct (prepare_cache_dir_effect w) as [Hlog0 _].
  destruct (main_world argv w) as [-> | [-> | [[c ->] | [c ->]]]].
  - exists []. rewrite app_nil_r. auto.
  - exists []. rewrite app_nil_r. auto.
  - destruct (download_arxiv_effect (nth 2 argv []) c
                (snd (prepare_cache_dir w))) as [(ops & Hlog & Hops) _].
    exists ops. rewrite Hlog0 in Hlog. split; [assumption |].
    destruct Hops as [-> | [-> | ->]]; auto.
  - destruct (download_url_effect (nth 2 argv []) c
                (snd (prepare_cache_dir w))) as [(ops & Hlog & Hops) _].
    exists ops. rewrite Hlog0 in Hlog. split; [assumption |].
    destruct Hops as [-> | ->]; auto.
Qed.

(** X14: a run never removes or overwrites a file: every file that
    existed before the run exists after it with the same content (a
    download is written only at a cache path where no file was). *)
Theorem main_keeps_files (argv : list str) (w : World) (p : str)
    (d : bytes) :
  files w p = Some d -> files (snd (main argv w)) p = Some d.
Proof.
  intros H. destruct (prepare_cache_dir_effect w) as [_ Hkeep].
  destruct (main_world argv w) as [-> | [-> | [[c ->] | [c ->]]]].
  - assumption.
  - now apply Hkeep.
  - apply download_arxiv_effect. now apply Hkeep.
  - apply download_url_effect. now apply Hkeep.
Qed.

Lemma main_keeps_files_witness :
  files
    (snd (main [lit "download_paper.py"; lit "url";
                lit "http://a.org/other.pdf"] my_paper_world))
    (lit "paper.pdf") = Some pdf_bytes.
Proof.
  apply (main_keeps_files
           [lit "download_paper.py"; lit "url"; lit "http://a.org/other.pdf"]
           my_paper_world (lit "paper.pdf") pdf_bytes).
  reflexivity.
Defined.

(** ** The skill loader: matching *)

Lemma match_step_inv (score : Skill -> nat) (ul : str) (seen : list Skill)
    (best : option Skill * nat) (x : Skill) :
  score = skill_score ul ->
  best_inv score seen best ->
  best_inv score (seen ++ [x]) (match_step ul best x).
Proof.
  intros -> H. unfold match_step.
  destruct (snd best <? skill_score ul x) eqn:E.
  - apply Nat.ltb_lt in E. right. exists x, seen, []. simpl.
    repeat split; try (intros t Ht; contradiction).
    + destruct H as [(_ & H0 & _) | (s & b & a & _ & _ & Hs & _)]; lia.
    + intros t Ht.
      destruct H as [(_ & H0 & Hz) | (s & b & a & _ & -> & Hs & _ & Hb & Ha)].
      * rewrite (Hz t Ht). lia.
      * apply in_app_or in Ht. destruct Ht as [Ht | [<- | Ht]].
        -- specialize (Hb t Ht). lia.
        -- lia.
        -- specialize (Ha t Ht). lia.
  - apply Nat.ltb_ge in E.
    destruct H as [(Hn & H0 & Hz) | (s & b & a & Hf & -> & Hs & Hp & Hb & Ha)].
    + left. repeat split; try assumption.
      intros t Ht. apply in_app_or in Ht.
      destruct Ht as [Ht | [<- | []]]; [now apply Hz | lia].
    + right. exists s, b, (a ++ [x]). repeat split; try assumption.
      * now rewrite <- app_assoc.
      * intros t Ht. apply in_app_or in Ht.
        destruct Ht as [Ht | [<- | []]]; [now apply Ha | lia].
Qed.

Lemma fold_match_step_inv (ul : str) (rest : list Skill) :
  forall seen best,
    best_inv (skill_score ul) seen best ->
    best_inv (skill_score ul) (seen ++ rest)
             (fold_left (match_step ul) rest best).
Proof.
  induction rest as [| x rest IH]; intros seen best H; simpl.
  - now rewrite app_nil_r.
  - replace (seen ++ x :: rest) with ((seen ++ [x]) ++ rest)
      by (now rewrite <- app_assoc).
    apply IH. now apply match_step_inv.
Qed.

Lemma match_skill_best (skills : Registry) (user_input : str) :
  best_inv (skill_score (lower user_input)) (map snd skills)
    (fold_left (match_step (lower user_input)) (map snd skills) (None, 0)).
Proof.
  apply (fold_match_step_inv (lower user_input) (map snd skills) [] (None, 0)).
  left. repeat split. intros t [].
Qed.

Lemma match_skill_some (skills : Registry) (user_input : str) (s : Skill) :
  match_skill skills user_input = Some s ->
  exists before after,
    map snd skills = before ++ s :: after /\
    0 < skill_score (lower user_input) s /\
    (forall t, In t before ->
               skill_score (lower user_input) t <
               skill_score (lower user_input) s) /\
    (forall t, In t after ->
               skill_score (lower user_input) t <=
               skill_score (lower user_input) s).
Proof.
  unfold match_skill. intros H.
  destruct (match_skill_best skills user_input)
    as [(Hn & H0 & _) | (s' & b & a & Hf & Hl & Hs & Hp & Hb & Ha)].
  - rewrite H0 in H. discriminate.
  - destruct (0 <? snd _); [| discriminate].
    rewrite Hf in H. injection H as <-. now exists b, a.
Qed.

(** X15: [match_skill] returns nothing exactly when every registered
    skill scores 0 for the input (an empty registry included); a skill
    it returns is registered, has a positive score, scores strictly
    more than every skill registered before it and at least as much as
    every skill registered after it: among the best, the first wins. *)
Theorem match_skill_selects_first_best (skills : Registry)
    (user_input : str) :
  (match_skill skills user_input = None <->
   forall t, In t (map snd skills) ->
             skill_score (lower user_input) t = 0)
  /\ (forall s,
        match_skill skills user_input = Some s ->
        exists before after,
          map snd skills = before ++ s :: after /\
          0 < skill_score (lower user_input) s /\
          (forall t, In t before ->
                     skill_score (lower user_input) t <
                     skill_score (lower user_input) s) /\
          (forall t, In t after ->
                     skill_score (lower user_input) t <=
                     skill_score (lower user_input) s)).
Proof.
  split; [| intros s; apply match_skill_some].
  unfold match_skill.
  destruct (match_skill_best skills user_input)
    as [(Hn & H0 & Hz) | (s' & b & a & Hf & Hl & Hs & Hp & Hb & Ha)].
  - rewrite H0. simpl. split; [intros _; exact Hz | reflexivity].
  - rewrite Hs, Hf. apply Nat.ltb_lt in Hp. rewrite Hp. split.
    + discriminate.
    + intros Hz. apply Nat.ltb_lt in Hp.
      rewrite (Hz s') in Hp; [lia |].
      rewrite Hl. apply in_or_app. right. now left.
Qed.

Lemma match_skill_selects_first_best_witness :
  exists before after,
    map snd [(lit "Code-Review", review_skill);
             (lit "paper-reader", paper_skill)] =
      before ++ paper_skill :: after /\
    0 < skill_score (lower (lit "Read this Paper Reader")) paper_skill /\
    (forall t, In t before ->
               skill_score (lower (lit "Read this Paper Reader")) t <
               skill_score (lower (lit "Read this Paper Reader")) paper_skill)
    /\
    (forall t, In t after ->
               skill_score (lower (lit "Read this Paper Reader")) t <=
               skill_score (lower (lit "Read this Paper Reader")) paper_skill).
Proof.
  apply (proj2 (match_skill_selects_first_best
                  [(lit "Code-Review", review_skill);
                   (lit "paper-reader", paper_skill)]
                  (lit "Read this Paper Reader"))).
  vm_compute. reflexivity.
Defined.

Lemma startswith_In (p s : str) (c : ascii) :
  startswith s p = true -> In c p -> In c s.
Proof.
  revert s. induction p as [| a p IH]; intros s H Hin; [contradiction |].
  destruct s as [| b s]; simpl in H; [discriminate |].
  apply andb_true_iff in H. destruct H as [Hab H].
  apply Ascii.eqb_eq in Hab. subst b.
  destruct Hin as [-> | Hin]; [now left | right; now apply IH].
Qed.

Lemma contains_In (s sub : str) (c : ascii) :
  contains s sub = true -> In c sub -> In c s.
Proof.
  induction s as [| x s IH]; simpl; intros H Hin.
  - destruct (startswith [] sub) eqn:E; [| discriminate].
    exact (startswith_In _ _ _ E Hin).
  - destruct (startswith (x :: s) sub) eqn:E.
    + exact (startswith_In _ _ _ E Hin).
    + right. now apply IH.
Qed.

Lemma replace_hyphen_In (s : str) (c : ascii) :
  In c s -> c <> "-"%char ->
  In c (replace s (lit "-") (lit " ")).
Proof.
  unfold replace. intros Hin Hc.
  induction s as [| x s IH]; [contradiction |].
  cbn [replace_from lit list_ascii_of_string List.length Nat.sub startswith].
  destruct (Ascii.eqb "-" x) eqn:E; cbn [andb].
  - apply Ascii.eqb_eq in E. subst x.
    destruct Hin as [H | H]; [congruence |]. right. now apply IH.
  - destruct Hin as [-> | H]; [now left | right; now apply IH].
Qed.

Lemma lower_fixed (s : str) (c : ascii) :
  In c (lower s) -> lower_char c = c.
Proof.
  unfold lower. intros H. apply in_map_iff in H.
  destruct H as (x & <- & _). apply lower_char_idem.
Qed.

Lemma capital_name_not_in_input (user_input : str) (skill : Skill) :
  has_capital (name skill) ->
  name_in_input (lower user_input) skill = false.
Proof.
  intros (c & Hin & Hc). unfold name_in_input.
  destruct (contains _ _) eqn:E; [| reflexivity].
  exfalso. apply Hc. apply (lower_fixed user_input).
  apply (contains_In _ _ _ E). apply replace_hyphen_In; [assumption |].
  intros ->. apply Hc. reflexivity.
Qed.

(** X16: the name of a skill is looked for in the lower-cased input as
    it is written (hyphens as spaces), so a skill whose name has a
    capital letter never gets the 5 points of a name match: its score
    is the number of words its description shares with the input, and
    [match_skill] returns it only when that number is positive. *)
Theorem capital_name_gets_no_bonus (skills : Registry) (user_input : str)
    (skill : Skill) :
  has_capital (name skill) ->
  skill_score (lower user_input) skill =
    description_overlap (lower user_input) skill /\
  (match_skill skills user_input = Some skill ->
   0 < description_overlap (lower user_input) skill).
Proof.
  intros H.
  assert (E : skill_score (lower user_input) skill =
              description_overlap (lower user_input) skill).
  { unfold skill_score.
    now rewrite (capital_name_not_in_input user_input skill H). }
  split; [assumption |].
  intros Hm. apply match_skill_some in Hm.
  destruct Hm as (b & a & _ & Hp & _). now rewrite <- E.
Qed.

Lemma capital_name_gets_no_bonus_witness :
  skill_score (lower (lit "do a Code Review")) review_skill =
    description_overlap (lower (lit "do a Code Review")) review_skill /\
  (match_skill [(lit "Code-Review", review_skill)] (lit "do a Code Review")
   = Some review_skill ->
   0 < description_overlap (lower (lit "do a Code Review")) review_skill).
Proof.
  apply (capital_name_gets_no_bonus [(lit "Code-Review", review_skill)]
           (lit "do a Code Review") review_skill).
  exists "C"%char. split; [now left | discriminate].
Defined.

Lemma match_skill_none (skills : Registry) (user_input : str) :
  match_skill skills user_input = None ->
  forall t, In t (map snd skills) -> skill_score (lower user_input) t = 0.
Proof.
  unfold match_skill. intros H.
  destruct (match_skill_best skills user_input)
    as [(Hn & H0 & Hz) | (s' & b & a & Hf & Hl & Hs & Hp & Hb & Ha)].
  - exact Hz.
  - rewrite Hs, Hf in H. apply Nat.ltb_lt in Hp. rewrite Hp in H.
    discriminate.
Qed.

(** X17: when the input, in lower case, contains the name of a
    registered skill (hyphens read as spaces), [match_skill] returns a
    skill, and one that scores at least 5: naming a skill is never left
    unmatched, though a skill with more shared words may win. *)
Theorem named_skill_is_matched (skills : Registry) (user_input : str)
    (skill : Skill) :
  In skill (map snd skills) ->
  name_in_input (lower user_input) skill = true ->
  exists s,
    match_skill skills user_input = Some s /\
    5 <= skill_score (lower user_input) s /\
    skill_score (lower user_input) skill <= skill_score (lower user_input) s.
Proof.
  intros Hin Hname.
  assert (H5 : 5 <= skill_score (lower user_input) skill).
  { unfold skill_score. rewrite Hname. lia. }
  destruct (match_skill skills user_input) as [s |] eqn:Hm.
  - exists s. split; [reflexivity |].
    apply match_skill_some in Hm.
    destruct Hm as (b & a & Hl & _ & Hb & Ha).
    rewrite Hl in Hin. apply in_app_or in Hin.
    destruct Hin as [Hin | [<- | Hin]].
    + specialize (Hb _ Hin). lia.
    + lia.
    + specialize (Ha _ Hin). lia.
  - rewrite (match_skill_none _ _ Hm skill Hin) in H5. lia.
Qed.

Lemma named_skill_is_matched_witness :
  exists s,
    match_skill [(lit "Code-Review", review_skill);
                 (lit "paper-reader", paper_skill)]
                (lit "Open the Paper Reader") = Some s /\
    5 <= skill_score (lower (lit "Open the Paper Reader")) s /\
    skill_score (lower (lit "Open the Paper Reader")) paper_skill <=
    skill_score (lower (lit "Open the Paper Reader")) s.
Proof.
  apply (named_skill_is_matched
           [(lit "Code-Review", review_skill);
            (lit "paper-reader", paper_skill)]
           (lit "Open the Paper Reader") paper_skill).
  - simpl. auto.
  - vm_compute. reflexivity.
Defined.

(** ** The skill loader: loading and lookup *)

Lemma dict_get_set (d : Registry) (k : str) (v : Skill) (n : str) :
  dict_get (dict_set d k v) n =
  if str_eqb k n then Some v else dict_get d n.
Proof.
  induction d as [| [k' v'] rest IH]; simpl; [reflexivity |].
  destruct (str_eqb k' k) eqn:Ek; simpl.
  - apply str_eqb_eq in Ek. subst k'. now destruct (str_eqb k n).
  - rewrite IH. destruct (str_eqb k' n) eqn:En; [| reflexivity].
    destruct (str_eqb k n) eqn:Ekn; [| reflexivity].
    apply str_eqb_eq in En. apply str_eqb_eq in Ekn. subst.
    now rewrite str_eqb_refl in Ek.
Qed.

Lemma registered_cons (entry : SkillDir) (entries : list SkillDir) :
  registered (entry :: entries) =
  (if is_dir entry && skill_file_exists entry
   then match parsed entry with Some skill => [skill] | None => [] end
   else []) ++ registered entries.
Proof. reflexivity. Qed.

Lemma get_skill_fold (entries : list SkillDir) (n : str) :
  forall skills,
    get_skill (fold_left load_entry entries skills) n =
    match last_registered entries n with
    | Some s => Some s
    | None => get_skill skills n
    end.
Proof.
  unfold last_registered, get_skill.
  induction entries as [| entry entries IH]; intros skills; simpl fold_left;
    [reflexivity |].
  rewrite IH, registered_cons, filter_app, rev_app_distr.
  destruct (rev (filter _ (registered entries))) as [| s l]; [| reflexivity].
  simpl app. unfold load_entry.
  destruct (is_dir entry); simpl; [| reflexivity].
  destruct (skill_file_exists entry); simpl; [| reflexivity].
  destruct (parsed entry) as [skill |]; simpl; [| reflexivity].
  rewrite dict_get_set. now destruct (str_eqb (name skill) n).
Qed.

(** X18: after [load_all] on an existing directory, [get_skill] of a
    name gives the last skill of the listing registered under that name
    (a later SKILL.md with the same name replaces an earlier one), and
    the skill the loader had under that name when the listing has none;
    the dict returned is the loader's own.  On a missing directory the
    dict returned is empty while the loader keeps what it had. *)
Theorem get_skill_after_load_all (entries : list SkillDir)
    (skills : Registry) (n : str) :
  get_skill (fst (load_all (Some entries) skills)) n =
    match last_registered entries n with
    | Some s => Some s
    | None => get_skill skills n
    end
  /\ snd (load_all (Some entries) skills) =
     fst (load_all (Some entries) skills)
  /\ (forall s, last_registered entries n = Some s ->
                name s = n /\ In s (registered entries))
  /\ load_all None skills = ([], skills).
Proof.
  repeat split.
  - apply get_skill_fold.
  - unfold last_registered in H.
    destruct (rev _) as [| x l] eqn:E; [discriminate |].
    injection H as ->.
    assert (Hin : In s (rev (filter (fun s0 => str_eqb (name s0) n)
                               (registered entries)))).
    { rewrite E. now left. }
    apply in_rev, filter_In in Hin. now apply str_eqb_eq.
  - unfold last_registered in H.
    destruct (rev _) as [| x l] eqn:E; [discriminate |].
    injection H as ->.
    assert (Hin : In s (rev (filter (fun s0 => str_eqb (name s0) n)
                               (registered entries)))).
    { rewrite E. now left. }
    apply in_rev, filter_In in Hin. tauto.
Qed.

(** X19: [load_all] keeps the names of the dict in step with the
    skills: when every key of the loader's dict is the name of its
    skill, the same holds after loading, so the skill [get_skill] finds
    under a name has that name. *)
Theorem get_skill_name (entries : list SkillDir) (skills : Registry)
    (n : str) (s : Skill) :
  (forall k v, get_skill skills k = Some v -> name v = k) ->
  get_skill (fst (load_all (Some entries) skills)) n = Some s ->
  name s = n.
Proof.
  intros Hold H. simpl in H. rewrite get_skill_fold in H.
  unfold last_registered in H.
  destruct (rev _) as [| x l] eqn:E.
  - now apply Hold.
  - injection H as ->.
    assert (Hin : In s (rev (filter (fun s0 => str_eqb (name s0) n)
                               (registered entries)))).
    { rewrite E. now left. }
    apply in_rev, filter_In in Hin. now apply str_eqb_eq.
Qed.

Lemma get_skill_name_witness :
  name paper_skill_v2 = lit "paper-reader".
Proof.
  apply (get_skill_name
           [ mkSkillDir true true (Some paper_skill);
             mkSkillDir false true (Some review_skill);
             mkSkillDir true true None;
             mkSkillDir true true (Some paper_skill_v2) ]
           [] (lit "paper-reader") paper_skill_v2).
  - intros k v H. discriminate.
  - vm_compute. reflexivity.
Defined.

(** ** Sections and page boundaries *)

Lemma line_step_segmentation (a b : LoopState) (line : str) :
  segmentation a = segmentation b ->
  segmentation (line_step a line) = segmentation (line_step b line).
Proof.
  unfold segmentation. intros H. injection H as Hs Hc.
  unfold line_step.
  destruct (section_pattern_match (strip line)); simpl.
  - now rewrite Hs, Hc.
  - destruct (truthy (strip line)); simpl; now rewrite Hs, Hc.
Qed.

Lemma fold_line_step_segmentation (lines : list str) :
  forall a b,
    segmentation a = segmentation b ->
    segmentation (fold_left line_step lines a) =
    segmentation (fold_left line_step lines b).
Proof.
  induction lines as [| line rest IH]; intros a b H; simpl; [assumption |].
  apply IH. now apply line_step_segmentation.
Qed.

Lemma pages_loop_segmentation (texts : list str) :
  forall n st st',
    pages_loop n (map Ok texts) st = Ok st' ->
    segmentation st' =
    segmentation (fold_left line_step (concat (map (split nl) texts)) st).
Proof.
  induction texts as [| text rest IH]; intros n st st' H; simpl in H.
  - now injection H as <-.
  - apply IH in H. rewrite H. simpl. rewrite fold_left_app.
    apply fold_line_step_segmentation. unfold page_step.
    now apply fold_line_step_segmentation.
Qed.

Lemma split_app (sep : ascii) (a b : str) :
  split sep (a ++ sep :: b) = split sep a ++ split sep b.
Proof.
  induction a as [| c a IH]; simpl.
  - now rewrite Ascii.eqb_refl.
  - rewrite IH. destruct (Ascii.eqb c sep); [reflexivity |].
    destruct (split sep a) eqn:E; [| reflexivity].
    destruct a; simpl in E; [discriminate |].
    destruct (Ascii.eqb a sep); [discriminate |].
    now destruct (split sep a0).
Qed.

Lemma sections_of_lines (path path' : str) (texts texts' : list str)
    (r r' : Extracted) :
  concat (map (split nl) texts) = concat (map (split nl) texts') ->
  extract_doc path (map Ok texts) = Ok r ->
  extract_doc path' (map Ok texts') = Ok r' ->
  r_sections r = r_sections r'.
Proof.
  intros Hlines H H'. unfold extract_doc in H, H'.
  destruct (pages_loop 0 (map Ok texts) initial_state) as [st |] eqn:E;
    [| discriminate].
  destruct (pages_loop 0 (map Ok texts') initial_state) as [st' |] eqn:E';
    [| discriminate].
  injection H as <-. injection H' as <-. simpl.
  apply pages_loop_segmentation in E, E'. rewrite <- Hlines in E'.
  rewrite <- E' in E. unfold segmentation in E. injection E as -> ->.
  reflexivity.
Qed.

(** X20: the sections depend on the sequence of lines only, not on how
    the lines are spread over pages: two documents whose pages split
    into the same lines have the same sections; so a section runs on
    across a page break, and two pages give the sections of the one
    page made of both with a newline between them. *)
Theorem sections_ignore_page_breaks :
  (forall path path' texts texts' r r',
      concat (map (split nl) texts) = concat (map (split nl) texts') ->
      extract_doc path (map Ok texts) = Ok r ->
      extract_doc path' (map Ok texts') = Ok r' ->
      r_sections r = r_sections r')
  /\ (forall path path' a b rest r r',
        extract_doc path (map Ok (a :: b :: rest)) = Ok r ->
        extract_doc path' (map Ok ((a ++ nl :: b) :: rest)) = Ok r' ->
        r_sections r = r_sections r').
Proof.
  split.
  - intros path path' texts texts' r r'. apply sections_of_lines.
  - intros path path' a b rest r r'. apply sections_of_lines.
    simpl. now rewrite split_app, <- app_assoc.
Qed.

Lemma sections_ignore_page_breaks_witness :
  r_sections
    (mkExtracted None (lit "a.pdf") 2
       (lit "Abstract" ++ [nl] ++ lit "One" ++ [nl; nl] ++ lit "Two")
       [mkSection (lit "Abstract") (lit "One" ++ [nl] ++ lit "Two")]) =
  r_sections
    (mkExtracted None (lit "b.pdf") 1
       (lit "Abstract" ++ [nl] ++ lit "One" ++ [nl] ++ lit "Two")
       [mkSection (lit "Abstract") (lit "One" ++ [nl] ++ lit "Two")]).
Proof.
  apply (proj2 sections_ignore_page_breaks (lit "a.pdf") (lit "b.pdf")
           (lit "Abstract" ++ [nl] ++ lit "One") (lit "Two") []);
    vm_compute; reflexivity.
Defined.

(** ** The transition rule over the whole document *)



